(** * downlinx: a shallow embedding of [downlinx.py] and its verified properties

    The development follows the Python module top to bottom:
    helper functions on strings, the geometry model ([Pos], [Size] and the
    scaling functions, whose arithmetic is IEEE binary64), the [Image] handle,
    the [Pipeline] class and its subclass [Downlinx].

    Conventions of the embedding.
    - A Python [str] is the list of its code points ([list N]).
    - A Python [int] is a [Z]; a Python [float] is a binary64 value, modelled
      by the rational it denotes together with the correctly rounded
      operations of IEEE 754 (round to nearest, ties to even).
    - A Python exception is a value of [exn]; a function that may raise
      returns an [outcome].
    - Methods that touch the object or the machine are functions of a state
      ([Pipeline] or [Downlinx] together with the [System]), returning an
      outcome and the new state: the effects made before an exception is
      raised stay in the state.
    - Programs run by [subprocess] (ImageMagick, curl) and the content of
      sources.json are parameters of the development.
    - Standard output (the echoed command lines) is not modelled, and
      assertions are taken as enabled. *)

From Stdlib Require Import ZArith QArith Qpower Qround Qabs Lqa Lia List Bool.
From Stdlib Require Import Ascii String Decimal DecimalZ.
From stdpp Require Import base option list gmap.

Local Open Scope Z_scope.

(* ===================================================================== *)
(** * Part I: the program *)
(* ===================================================================== *)

(** ** Strings *)

(** A Python [str]: a sequence of Unicode code points. *)
Definition str : Type := list N.

(** The code points of a literal (all literals of the module are ASCII). *)
Definition py (s : string) : str :=
  List.map N_of_ascii (list_ascii_of_string s).

(** ** Exceptions and outcomes *)

Inductive exn : Type :=
| AssertionError
| KeyError (key : str)
| TypeError
| ValueError
| OverflowError
| ZeroDivisionError
| OSError (path : str)
| IndexError
| CalledProcessError (cmd : list str)
| Exception (msg : str).

Inductive outcome (A : Type) : Type :=
| Ok (a : A)
| Raise (e : exn).
Arguments Ok {A} a.
Arguments Raise {A} e.

#[global] Instance outcome_ret : MRet outcome := fun A a => Ok a.
#[global] Instance outcome_bind : MBind outcome :=
  fun A B f m => match m with Ok a => f a | Raise e => Raise e end.

Definition raised {A} (r : outcome A) : bool :=
  match r with Ok _ => false | Raise _ => true end.

(** ** Whitespace helpers *)

(** What the pattern [\s] matches in a [str]: the code points for which
    CPython's [Py_UNICODE_ISSPACE] holds. *)
Definition is_whitespace (c : N) : bool :=
  ((9 <=? c) && (c <=? 13) || (28 <=? c) && (c <=? 32)
   || (c =? 133) || (c =? 160) || (c =? 5760)
   || (8192 <=? c) && (c <=? 8202)
   || (c =? 8232) || (c =? 8233) || (c =? 8239) || (c =? 8287)
   || (c =? 12288))%N.

Definition space : N := 32.
Definition quote : N := 34.
Definition underscore : N := 95.

(** [_has_whitespace]: [bool(re.search(r'\s', string))]. *)
Definition _has_whitespace (s : str) : bool := existsb is_whitespace s.

(** [_assert_no_whitespace]. *)
Definition _assert_no_whitespace (s : str) : outcome unit :=
  if _has_whitespace s then Raise AssertionError else Ok tt.

(** [s.replace(old, new)] for one-character [old] and [new]. *)
Definition str_replace (old new : N) (s : str) : str :=
  List.map (fun c => if (c =? old)%N then new else c) s.

(** [_replace_spaces]. *)
Definition _replace_spaces (source_name : str) : outcome str :=
  let replaced := str_replace space underscore source_name in
  _ ← _assert_no_whitespace replaced;
  Ok replaced.

(** [s.endswith(suffix)]. *)
Fixpoint startswith (prefix s : str) : bool :=
  match prefix, s with
  | [], _ => true
  | _ :: _, [] => false
  | a :: prefix', b :: s' => (a =? b)%N && startswith prefix' s'
  end.

Definition endswith (s suffix : str) : bool :=
  startswith (rev suffix) (rev s).

(** ** Formatting integers: [str(n)], as used by f-strings *)

Definition digit (c : N) : bool := ((48 <=? c) && (c <=? 57))%N.

Fixpoint str_of_uint (d : Decimal.uint) : str :=
  match d with
  | Nil => []
  | D0 d => 48%N :: str_of_uint d
  | D1 d => 49%N :: str_of_uint d
  | D2 d => 50%N :: str_of_uint d
  | D3 d => 51%N :: str_of_uint d
  | D4 d => 52%N :: str_of_uint d
  | D5 d => 53%N :: str_of_uint d
  | D6 d => 54%N :: str_of_uint d
  | D7 d => 55%N :: str_of_uint d
  | D8 d => 56%N :: str_of_uint d
  | D9 d => 57%N :: str_of_uint d
  end.

Definition str_of_int (n : Z) : str :=
  match Z.to_int n with
  | Decimal.Pos d => str_of_uint d
  | Decimal.Neg d => 45%N :: str_of_uint d
  end.

(** ** Paths: [os.path.join] and [os.path.dirname] (posixpath) *)

Definition slash : N := 47.

Definition path_join (a b : str) : str :=
  if startswith [slash] b then b
  else if bool_decide (a = []) || endswith a [slash] then a ++ b
  else a ++ [slash] ++ b.

Fixpoint drop_while (f : N -> bool) (s : str) : str :=
  match s with
  | [] => []
  | c :: s' => if f c then drop_while f s' else s
  end.

(** [s.rstrip('/')]. *)
Definition rstrip_slash (s : str) : str :=
  rev (drop_while (fun c => (c =? slash)%N) (rev s)).

(** [p[:p.rfind('/') + 1]]. *)
Definition head_upto_last_slash (p : str) : str :=
  rev (drop_while (fun c => negb (c =? slash)%N) (rev p)).

Definition path_dirname (p : str) : str :=
  let head := head_upto_last_slash p in
  if forallb (fun c => (c =? slash)%N) head then head else rstrip_slash head.

(** ** Floating point: IEEE 754 binary64, as CPython's [float]

    A finite float is modelled by the rational it denotes.  Every operation
    computes the exact rational result and rounds it once, to the nearest
    value with a 53-bit significand and exponent at least -1074
    (ties to even), overflowing to an infinity from 2^1024 on.  The sign of
    a zero is not kept: no operation of the module observes it (a division
    by either zero raises). *)

Local Open Scope Q_scope.

Definition pow2 (z : Z) : Q := 2 ^ z.

(** The nearest integer, ties to even. *)
Definition round_half_even (x : Q) : Z :=
  let f := Qfloor x in
  match Qcompare (x - inject_Z f) (1 # 2) with
  | Lt => f
  | Gt => (f + 1)%Z
  | Eq => if Z.even f then f else (f + 1)%Z
  end.

(** [floor (log2 x)] for [0 < x]. *)
Definition ilog2 (x : Q) : Z :=
  let k := (Z.log2 (Qnum x) - Z.log2 (Zpos (Qden x)))%Z in
  if Qle_bool (pow2 k) x then k else (k - 1)%Z.

(** Rounding of a positive rational: the unit in the last place is
    [2^(e-52)] for [2^e <= x < 2^(e+1)], and [2^-1074] for subnormals. *)
Definition round_pos (x : Q) : Q :=
  let e := Z.max (ilog2 x - 52) (-1074) in
  inject_Z (round_half_even (x / pow2 e)) * pow2 e.

Definition round64 (x : Q) : Q :=
  match Qnum x with
  | Z0 => 0
  | Zpos _ => round_pos x
  | Zneg _ => - round_pos (- x)
  end.

Inductive float : Type :=
| Finite (q : Q)
| Infinity (negative : bool)
| NaN.

Definition Qnegative (q : Q) : bool := (Qnum q <? 0)%Z.
Definition Qzero (q : Q) : bool := (Qnum q =? 0)%Z.

(** The float nearest to an exact result. *)
Definition to_float (x : Q) : float :=
  let r := round64 x in
  if Qle_bool (pow2 1024) (Qabs r) then Infinity (Qnegative r) else Finite r.

(** [float(n)] and the implicit conversion of an [int] operand: raises
    [OverflowError] when the integer is too large. *)
Definition float_of_int (n : Z) : outcome float :=
  match to_float (inject_Z n) with
  | Infinity _ => Raise OverflowError
  | f => Ok f
  end.

(** [a / b] on two [int]s: the correctly rounded quotient. *)
Definition int_truediv (a b : Z) : outcome float :=
  if (b =? 0)%Z then Raise ZeroDivisionError
  else match to_float (inject_Z a / inject_Z b) with
       | Infinity _ => Raise OverflowError
       | f => Ok f
       end.

(** [a / b] on two [float]s. *)
Definition float_div (a b : float) : outcome float :=
  match b with
  | Finite q =>
      if Qzero q then Raise ZeroDivisionError
      else match a with
           | Finite p => Ok (to_float (p / q))
           | Infinity s => Ok (Infinity (xorb s (Qnegative q)))
           | NaN => Ok NaN
           end
  | Infinity _ => match a with Finite _ => Ok (Finite 0) | _ => Ok NaN end
  | NaN => Ok NaN
  end.

(** [a * b] on two [float]s. *)
Definition float_mul (a b : float) : float :=
  match a, b with
  | Finite p, Finite q => to_float (p * q)
  | Finite p, Infinity s | Infinity s, Finite p =>
      if Qzero p then NaN else Infinity (xorb s (Qnegative p))
  | Infinity s, Infinity t => Infinity (xorb s t)
  | _, _ => NaN
  end.

(** [a - b] on two [float]s. *)
Definition float_sub (a b : float) : float :=
  match a, b with
  | Finite p, Finite q => to_float (p - q)
  | Finite _, Infinity s => Infinity (negb s)
  | Infinity s, Finite _ => Infinity s
  | Infinity s, Infinity t => if Bool.eqb s t then NaN else Infinity s
  | _, _ => NaN
  end.

(** [a > b] on two [float]s. *)
Definition float_gt (a b : float) : bool :=
  match a, b with
  | Finite p, Finite q => negb (Qle_bool p q)
  | Finite _, Infinity s => s
  | Infinity s, Finite _ => negb s
  | Infinity s, Infinity t => negb s && t
  | _, _ => false
  end.

(** Truncation toward zero. *)
Definition Qtruncate (q : Q) : Z :=
  if Qnegative q then Qceiling q else Qfloor q.

(** [int(a)] on a [float]. *)
Definition int_of_float (a : float) : outcome Z :=
  match a with
  | Finite q => Ok (Qtruncate q)
  | Infinity _ => Raise OverflowError
  | NaN => Raise ValueError
  end.

Local Close Scope Q_scope.

(** ** Geometry *)

(** [class Pos(NamedTuple)]. *)
Record Pos : Type := mkPos { x : Z; y : Z }.

(** [class Size(NamedTuple)]. *)
Record Size : Type := mkSize { w : Z; h : Z }.

(** [aspect_ratio]: [float(size.w) / size.h]. *)
Definition aspect_ratio (size : Size) : outcome float :=
  fw ← float_of_int (w size);
  fh ← float_of_int (h size);
  float_div fw fh.

(** [scale_factor]: [Size(int(orig.w * factor), int(orig.h * factor))]. *)
Definition scale_factor (orig : Size) (factor : float) : outcome Size :=
  fw ← float_of_int (w orig);
  w' ← int_of_float (float_mul fw factor);
  fh ← float_of_int (h orig);
  h' ← int_of_float (float_mul fh factor);
  Ok (mkSize w' h').

(** [scale_to_width]: [height = int(width / aspect_ratio(orig))]. *)
Definition scale_to_width (orig : Size) (width : Z) : outcome Size :=
  ratio ← aspect_ratio orig;
  fwidth ← float_of_int width;
  quotient ← float_div fwidth ratio;
  height ← int_of_float quotient;
  Ok (mkSize width height).

(** [scale_to_height]: [width = int(height * aspect_ratio(orig))]. *)
Definition scale_to_height (orig : Size) (height : Z) : outcome Size :=
  ratio ← aspect_ratio orig;
  fheight ← float_of_int height;
  width ← int_of_float (float_mul fheight ratio);
  Ok (mkSize width height).

(** [scale_to_fit]. *)
Definition scale_to_fit (orig bounding_box : Size) : outcome Size :=
  ratio ← aspect_ratio orig;
  box_ratio ← aspect_ratio bounding_box;
  if float_gt ratio box_ratio
  then scale_to_width orig (w bounding_box)
  else scale_to_height orig (h bounding_box).

(** [add_pos]. *)
Definition add_pos (pos1 pos2 : Pos) : Pos :=
  mkPos (x pos1 + x pos2) (y pos1 + y pos2).

(** The offset of one axis: [int(frame/2 - image/2)]. *)
Definition centering_axis (image frame : Z) : outcome Z :=
  half_frame ← int_truediv frame 2;
  half_image ← int_truediv image 2;
  int_of_float (float_sub half_frame half_image).

(** [centering_offset]; [frame_offset] defaults to [Pos(0, 0)]. *)
Definition centering_offset
    (image_size frame_size : Size) (frame_offset : option Pos) : outcome Pos :=
  let frame_offset := default (mkPos 0 0) frame_offset in
  cx ← centering_axis (w image_size) (w frame_size);
  cy ← centering_axis (h image_size) (h frame_size);
  Ok (add_pos frame_offset (mkPos cx cy)).

(** A positive rational that binary64 holds exactly (ignoring overflow). *)
Definition representable (c : Q) : Prop :=
  exists m q, (c == inject_Z m * pow2 q)%Q /\ (0 < m < 2 ^ 53)%Z /\ (-1074 <= q)%Z.

(** Half an ulp, relative: 2^-53. *)
Definition eps : Q := (1 # 9007199254740992)%Q.

(** ** The machine and the state monad *)

(** What the module sees of the machine it runs on. *)
Record System : Type := mkSystem {
  (** regular files, with their modification time: the microsecond count of
      [datetime.fromtimestamp(stat().st_mtime)] *)
  files : gmap str Z;
  (** directories made by [os.makedirs] *)
  dirs : gset str;
  (** [datetime.now()], in microseconds *)
  clock : Z;
  (** the command lines handed to [subprocess], oldest first *)
  calls : list (list str)
}.

Definition set_files (f : gmap str Z) (s : System) : System :=
  mkSystem f (dirs s) (clock s) (calls s).
Definition set_dirs (d : gset str) (s : System) : System :=
  mkSystem (files s) d (clock s) (calls s).
Definition set_calls (c : list (list str)) (s : System) : System :=
  mkSystem (files s) (dirs s) (clock s) c.

(** A computation on a state [St] that returns an [A] or raises; the state
    it leaves is kept in both cases. *)
Definition M (St A : Type) : Type := St -> outcome A * St.

#[global] Instance M_ret {St} : MRet (M St) := fun A a st => (Ok a, st).
#[global] Instance M_bind {St} : MBind (M St) :=
  fun A B f m st =>
    match m st with
    | (Ok a, st') => f a st'
    | (Raise e, st') => (Raise e, st')
    end.

Definition raise {St A} (e : exn) : M St A := fun st => (Raise e, st).
Definition lift {St A} (r : outcome A) : M St A := fun st => (r, st).
Definition reads {St A} (f : St -> A) : M St A := fun st => (Ok (f st), st).
Definition modify {St} (f : St -> St) : M St unit := fun st => (Ok tt, f st).

(** A computation on the machine, run by a method of an object [O]. *)
Definition on_system {O A} (m : M System A) : M (O * System) A :=
  fun st => let '(r, s') := m (snd st) in (r, (fst st, s')).

(** [os.path.isfile]. *)
Definition isfile (path : str) (s : System) : bool :=
  bool_decide (is_Some (files s !! path)).

(** [os.remove] of a regular file. *)
Definition remove (path : str) : M System unit :=
  modify (fun s => set_files (delete path (files s)) s).

(** [os.makedirs(dirpath, exist_ok=True)]: fails on the empty path and
    where a regular file is in the way. *)
Definition makedirs (dirpath : str) : M System unit :=
  fun s =>
    if bool_decide (dirpath = []) || isfile dirpath s
    then (Raise (OSError dirpath), s)
    else (Ok tt, set_dirs ({[dirpath]} ∪ dirs s) s).

(** [_ensure_directory_exists]. *)
Definition _ensure_directory_exists (filepath : str) : M System unit :=
  let dirpath := path_dirname filepath in
  makedirs dirpath.

(** [MAGICK_PNG_COLOR]. *)
Definition MAGICK_PNG_COLOR : list str := [py "-define"; py "png:color-type=6"].

(** [class Image]: the file path and the size probed from the file. *)
Record Image : Type := mkImage { filepath : str; size : Size }.

(** [class Pipeline]. *)
Record Pipeline : Type := mkPipeline {
  images_dir : str;
  generated_image_count : Z
}.

(** [Pipeline.__init__]. *)
Definition Pipeline__init__ (pipeline_dir : str) : Pipeline :=
  mkPipeline (path_join pipeline_dir (py "images")) 0.

(** An image source of sources.json. *)
Record Source : Type := mkSource {
  name : str;
  url : gmap str str;
  interval : Z
}.

(** [class Downlinx(Pipeline)]. *)
Record Downlinx : Type := mkDownlinx {
  super : Pipeline;
  sources : list Source
}.

(** A method of [Pipeline] called on a [Downlinx]. *)
Definition inherited {A} (m : M (Pipeline * System) A) : M (Downlinx * System) A :=
  fun st =>
    let '(r, (p, s)) := m (super (fst st), snd st) in
    (r, (mkDownlinx p (sources (fst st)), s)).

(** [datetime.timedelta], normalised as CPython keeps it:
    [0 <= seconds < 86400] and [0 <= microseconds < 1000000]. *)
Record timedelta : Type := mkTimedelta {
  days : Z;
  seconds : Z;
  microseconds : Z
}.

(** The difference of two [datetime]s given in microseconds. *)
Definition datetime_sub (a b : Z) : timedelta :=
  let us := a - b in
  mkTimedelta (us / 86400000000) (us mod 86400000000 / 1000000) (us mod 1000000).

(** ** The module, over its environment *)

(** What the module takes from its environment. *)
Class Environment : Type := {
  (** [LEGACY_IMAGE_MAGICK]: resolved once, when the module is imported. *)
  LEGACY_IMAGE_MAGICK : option bool;
  (** Running a command line to its end: whether it exited with status
      zero, and the machine it leaves. *)
  run_command : list str -> System -> bool * System;
  (** The standard output of an [identify -ping -format '%w %h'] command
      line read as two integers; [None] when the command fails or prints
      something else. *)
  identify_output : list str -> System -> option Size;
  (** The ['sources'] entry of the JSON document in a file. *)
  json_load_sources : str -> System -> outcome (list Source);
  (** The directory of downlinx.py. *)
  script_dir : str
}.

Section downlinx.
Context `{Environment}.

(** [subprocess.check_call]: the command line is logged, run, and a
    non-zero exit status raises. *)
Definition check_call (cmd : list str) : M System unit :=
  fun s =>
    let '(ok, s') := run_command cmd s in
    let s'' := set_calls (calls s ++ [cmd]) s' in
    if ok then (Ok tt, s'') else (Raise (CalledProcessError cmd), s'').

(** [_check_call_with_echo] (the echo goes to standard output). *)
Definition _check_call_with_echo (cmd : list str) : M System unit :=
  check_call cmd.

(** [magick]. *)
Definition magick (args : list str) : M System unit :=
  match LEGACY_IMAGE_MAGICK with
  | Some false => _check_call_with_echo (py "magick" :: args)
  | _ =>
      match args with
      | [] => raise IndexError
      | arg0 :: _ =>
          if bool_decide (arg0 ≠ py "convert")
          then _check_call_with_echo (py "convert" :: args)
          else _check_call_with_echo args
      end
  end.

(** [Image.__init__]: probes the file with [subprocess.check_output]. *)
Definition Image__init__ (filepath : str) : M System Image :=
  let cmdline := [py "identify"; py "-ping"; py "-format"; py "%w %h"; filepath] in
  let cmdline :=
    match LEGACY_IMAGE_MAGICK with
    | Some false => py "magick" :: cmdline
    | _ => cmdline
    end in
  fun s =>
    let s' := set_calls (calls s ++ [cmdline]) s in
    match identify_output cmdline s with
    | Some size => (Ok (mkImage filepath size), s')
    | None => (Raise (CalledProcessError cmdline), s')
    end.

(** *** [class Pipeline] *)

(** [Pipeline._image_path]. *)
Definition _image_path (self : Pipeline) (filename : str) : str :=
  path_join (images_dir self) filename.

(** [Pipeline._new]. *)
Definition _new (image_type : str) : M (Pipeline * System) str :=
  self ← reads fst;
  let filename :=
    py "generated" ++ str_of_int (generated_image_count self) ++ py "." ++ image_type in
  let filepath := _image_path self filename in
  _ ← lift (_assert_no_whitespace filepath);
  _ ← on_system (_ensure_directory_exists filepath);
  _ ← modify (fun st =>
         (mkPipeline (images_dir (fst st)) (generated_image_count (fst st) + 1), snd st));
  present ← reads (fun st => isfile filepath (snd st));
  _ ← (if present : bool then on_system (remove filepath) else mret tt);
  mret filepath.

(** [f'{size.w}x{size.h}']. *)
Definition format_size (size : Size) : str :=
  str_of_int (w size) ++ py "x" ++ str_of_int (h size).

(** [f'+{offset.x}+{offset.y}']. *)
Definition format_offset (offset : Pos) : str :=
  py "+" ++ str_of_int (x offset) ++ py "+" ++ str_of_int (y offset).

(** [Pipeline.crop]. *)
Definition crop (image : Image) (offset : Pos) (size : Size)
  : M (Pipeline * System) Image :=
  cropped ← _new (py "png");
  _ ← on_system (magick ([py "convert"; filepath image; py "-crop";
                           format_size size ++ format_offset offset]
                          ++ MAGICK_PNG_COLOR ++ [cropped]));
  on_system (Image__init__ cropped).

(** [Pipeline.blank]. *)
Definition blank (color : str) (size : Size) : M (Pipeline * System) Image :=
  new ← _new (py "png");
  _ ← on_system (magick ([py "convert"; py "-size"; format_size size;
                           py "canvas:" ++ color]
                          ++ MAGICK_PNG_COLOR ++ [new]));
  on_system (Image__init__ new).

(** [Pipeline.place]. *)
Definition place (new : Image) (offset : Pos) (base : Image)
  : M (Pipeline * System) Image :=
  combined ← _new (py "png");
  _ ← on_system (magick ([py "convert"; filepath base; filepath new; py "-geometry";
                           format_offset offset; py "-composite"]
                          ++ MAGICK_PNG_COLOR ++ [combined]));
  on_system (Image__init__ combined).

(** [Pipeline.resize]. *)
Definition resize (image : Image) (size : Size) : M (Pipeline * System) Image :=
  resized ← _new (py "png");
  _ ← on_system (magick ([py "convert"; filepath image; py "-resize"; format_size size]
                          ++ MAGICK_PNG_COLOR ++ [resized]));
  on_system (Image__init__ resized).

(** [Pipeline.to_jpg]. *)
Definition to_jpg (image : Image) : M (Pipeline * System) Image :=
  jpg ← _new (py "jpg");
  _ ← on_system (magick [py "convert"; filepath image; jpg]);
  on_system (Image__init__ jpg).

(** *** [class Downlinx] *)

(** [f'Name "{name}" is not unique in the sources list']. *)
Definition name_not_unique (name : str) : str :=
  py "Name " ++ [quote] ++ name ++ [quote] ++ py " is not unique in the sources list".

(** [f'Spaceless name "{name_no_spaces}" is not unique in the sources list']. *)
Definition spaceless_name_not_unique (name_no_spaces : str) : str :=
  py "Spaceless name " ++ [quote] ++ name_no_spaces ++ [quote]
  ++ py " is not unique in the sources list".

(** The loop of [_assert_unique_names] over the sources still to visit,
    with the two sets built so far. *)
Fixpoint unique_names_loop
    (todo : list Source) (unique_names unique_names_no_spaces : gset str)
  : outcome unit :=
  match todo with
  | [] => Ok tt
  | s :: todo' =>
      let name := name s in
      name_no_spaces ← _replace_spaces name;
      if bool_decide (name ∈ unique_names)
      then Raise (Exception (name_not_unique name))
      else if bool_decide (name_no_spaces ∈ unique_names_no_spaces)
      then Raise (Exception (spaceless_name_not_unique name_no_spaces))
      else unique_names_loop todo' ({[name]} ∪ unique_names)
             ({[name_no_spaces]} ∪ unique_names_no_spaces)
  end.

(** [Downlinx._assert_unique_names]. *)
Definition _assert_unique_names (self : Downlinx) : outcome unit :=
  unique_names_loop (sources self) ∅ ∅.

(** [Downlinx._assert_all_formats_expected]. *)
Definition _assert_all_formats_expected (self : Downlinx) : outcome unit :=
  if forallb (fun s => forallb (fun item => endswith (snd item) (py ".jpg"))
                         (map_to_list (url s)))
       (sources self)
  then Ok tt else Raise AssertionError.

(** [Downlinx.__init__]: sources.json of the pipeline directory, or else
    the one shipped next to downlinx.py. *)
Definition Downlinx__init__ (pipeline_dir : str) (s : System) : outcome Downlinx :=
  let base := Pipeline__init__ pipeline_dir in
  let sources_path := path_join pipeline_dir (py "sources.json") in
  let sources_path :=
    if negb (isfile sources_path s)
    then path_join script_dir (py "sources.json") else sources_path in
  if negb (isfile sources_path s) then Raise (OSError sources_path)
  else
    loaded ← json_load_sources sources_path s;
    let self := mkDownlinx base loaded in
    _ ← _assert_unique_names self;
    _ ← _assert_all_formats_expected self;
    Ok self.

(** [Downlinx._source]: [None] when no source has the name. *)
Definition _source (self : Downlinx) (source_name : str) : option Source :=
  List.find (fun s => bool_decide (name s = source_name)) (sources self).

(** [source['interval']] and [source['url']]: subscripting [None] raises. *)
Definition source_interval (source : option Source) : outcome Z :=
  match source with Some s => Ok (interval s) | None => Raise TypeError end.

Definition source_url (source : option Source) : outcome (gmap str str) :=
  match source with Some s => Ok (url s) | None => Raise TypeError end.

(** [d[key]]. *)
Definition getitem (d : gmap str str) (key : str) : outcome str :=
  match d !! key with Some v => Ok v | None => Raise (KeyError key) end.

(** The first part of [Downlinx.get], up to the freshness test: the image
    of the cached file when it is returned at once, [None] to go on to the
    download. *)
Definition get_cached (source : option Source) (filepath : str)
  : M (Downlinx * System) (option Image) :=
  modification_time ← reads (fun st => files (snd st) !! filepath);
  match modification_time with
  | Some modification_time =>
      now ← reads (fun st => clock (snd st));
      let age := seconds (datetime_sub now modification_time) in
      interval ← lift (source_interval source);
      if age <? interval
      then image ← on_system (Image__init__ filepath); mret (Some image)
      else mret None
  | None => mret None
  end.

(** [Downlinx.get]. *)
Definition get (source_name size : str) : M (Downlinx * System) Image :=
  name_no_spaces ← lift (_replace_spaces source_name);
  let filename := name_no_spaces ++ py "_" ++ size ++ py ".jpg" in
  self ← reads fst;
  let filepath := _image_path (super self) filename in
  _ ← lift (_assert_no_whitespace filepath);
  _ ← on_system (_ensure_directory_exists filepath);
  let source := _source self source_name in
  cached ← get_cached source filepath;
  match cached with
  | Some image => mret image
  | None =>
      urls ← lift (source_url source);
      address ← lift (getitem urls size);
      _ ← on_system (_check_call_with_echo [py "curl"; py "-o"; filepath; address]);
      on_system (Image__init__ filepath)
  end.

(** [Downlinx._clean_goes_large]. *)
Definition _clean_goes_large (source_name : str) : M (Downlinx * System) Image :=
  full_disk ← get source_name (py "large");
  full_disk_minus_info_bar ←
    inherited (crop full_disk (mkPos 0 0)
                 (mkSize (w (size full_disk)) (h (size full_disk) - 47)));
  logo_hider ← inherited (blank (py "black") (mkSize 400 400));
  inherited (place logo_hider
               (mkPos 0 (h (size full_disk_minus_info_bar) - h (size logo_hider)))
               full_disk_minus_info_bar).

(** [Downlinx.clean_goes_east_large] and [Downlinx.clean_goes_west_large]. *)
Definition clean_goes_east_large : M (Downlinx * System) Image :=
  _clean_goes_large (py "GOES-East Full Disk").

Definition clean_goes_west_large : M (Downlinx * System) Image :=
  _clean_goes_large (py "GOES-West Full Disk").

(** [Downlinx.clean_himawari8_large]. *)
Definition clean_himawari8_large : M (Downlinx * System) Image :=
  full_disk ← get (py "Himawari-8 Full Disk") (py "large");
  logo_hider ← inherited (blank (py "black") (mkSize 1000 450));
  inherited (place logo_hider
               (mkPos 0 (h (size full_disk) - h (size logo_hider))) full_disk).

(** *** Recipes: the calls a run.py makes on its pipeline, in order *)

(** One call of a transform, with its arguments. *)
Inductive operation : Type :=
| Crop (image : Image) (offset : Pos) (size : Size)
| Blank (color : str) (size : Size)
| Place (new : Image) (offset : Pos) (base : Image)
| Resize (image : Image) (size : Size)
| To_jpg (image : Image).

Definition perform (o : operation) : M (Pipeline * System) Image :=
  match o with
  | Crop image offset size => crop image offset size
  | Blank color size => blank color size
  | Place new offset base => place new offset base
  | Resize image size => resize image size
  | To_jpg image => to_jpg image
  end.

(** One call on a [Downlinx]: a transform or a [get]. *)
Inductive call : Type :=
| Transform (o : operation)
| Get (source_name size : str).

Definition perform_call (c : call) : M (Downlinx * System) Image :=
  match c with
  | Transform o => inherited (perform o)
  | Get source_name size => get source_name size
  end.

(** Running calls in order until one raises (an exception ends the run):
    the images returned, the exception if any, and the final state. *)
Fixpoint run {St C} (step : C -> M St Image) (cs : list C) (st : St)
  : list Image * option exn * St :=
  match cs with
  | [] => ([], None, st)
  | c :: cs' =>
      match step c st with
      | (Ok image, st') =>
          let '(images, e, st'') := run step cs' st' in (image :: images, e, st'')
      | (Raise e, st') => ([], Some e, st')
      end
  end.

End downlinx.

(** ** A concrete environment, to run the module on examples *)

(** The file a command line writes: the argument of [-o] for curl, the
    last argument for ImageMagick. *)
Definition written_file (cmd : list str) : str :=
  match cmd with
  | tool :: _ :: out :: _ =>
      if bool_decide (tool = py "curl") then out else List.last cmd []
  | _ => List.last cmd []
  end.

(** Every command succeeds, takes two seconds and writes its file. *)
Definition demo_run_command (cmd : list str) (s : System) : bool * System :=
  let now := clock s + 2000000 in
  (true, mkSystem (<[written_file cmd := now]> (files s)) (dirs s) now (calls s)).

(** Every existing file is a 5424 x 5424 image. *)
Definition demo_identify_output (cmd : list str) (s : System) : option Size :=
  if isfile (List.last cmd []) s then Some (mkSize 5424 5424) else None.

Definition demo_goes_east : Source :=
  mkSource (py "GOES-East Full Disk")
    {[ py "large" := py "https://cdn.example/GOES16/5424x5424.jpg";
       py "small" := py "https://cdn.example/GOES16/678x678.jpg" ]} 3600.

Definition demo_himawari : Source :=
  mkSource (py "Himawari-8 Full Disk")
    {[ py "large" := py "https://cdn.example/himawari/full.jpg" ]} 600.

Definition demo_sources : list Source := [demo_goes_east; demo_himawari].

Definition demo_environment : Environment := {|
  LEGACY_IMAGE_MAGICK := Some false;
  run_command := demo_run_command;
  identify_output := demo_identify_output;
  json_load_sources := fun _ _ => Ok demo_sources;
  script_dir := py "/opt/downlinx"
|}.

Definition demo_pipeline : Pipeline := Pipeline__init__ (py "/home/u/simple").
Definition demo_downlinx : Downlinx := mkDownlinx demo_pipeline demo_sources.

(** A machine with nothing cached, and one where the large GOES-East image
    was downloaded at time 0, read by a clock that is at [now]. *)
Definition empty_system (now : Z) : System := mkSystem ∅ ∅ now [].

Definition goes_east_cache : str :=
  py "/home/u/simple/images/GOES-East_Full_Disk_large.jpg".

Definition cached_system (now : Z) : System :=
  mkSystem {[ goes_east_cache := 0 ]} {[ py "/home/u/simple/images" ]} now [].

(** A machine where a file sits at the cache path of a size label,
    "medium", that the catalog does not list. *)
Definition medium_cache : str :=
  py "/home/u/simple/images/GOES-East_Full_Disk_medium.jpg".

Definition medium_system (now : Z) : System :=
  mkSystem {[ medium_cache := 0 ]} {[ py "/home/u/simple/images" ]} now [].

(** A catalog with the two names "A B" and "A_B", and an environment whose
    sources.json holds it. *)
Definition ab_sources : list Source :=
  [ mkSource (py "A B") {[ py "large" := py "https://cdn.example/ab.jpg" ]} 60;
    mkSource (py "A_B") {[ py "large" := py "https://cdn.example/a_b.jpg" ]} 60 ].

Definition ab_environment : Environment := {|
  LEGACY_IMAGE_MAGICK := Some false;
  run_command := demo_run_command;
  identify_output := demo_identify_output;
  json_load_sources := fun _ _ => Ok ab_sources;
  script_dir := py "/opt/downlinx"
|}.

Definition ab_system : System :=
  mkSystem {[ py "/opt/downlinx/sources.json" := 0 ]} ∅ 0 [].

(** ** The properties the specification states, as predicates *)

(** A size fits a bounding box and touches it on one axis. *)
Definition fits_in (fit box : Size) : Prop :=
  w fit <= w box /\ h fit <= h box /\ (w fit = w box \/ h fit = h box).

(** The frame offset plus half the difference of the sizes, each axis
    truncated toward zero. *)
Definition centered (image_size frame_size : Size) (frame_offset : Pos) : Pos :=
  add_pos frame_offset
    (mkPos ((w frame_size - w image_size) ÷ 2) ((h frame_size - h image_size) ÷ 2)).

(** An integer that a float holds exactly, with room for halves. *)
Definition small (n : Z) : Prop := - 2 ^ 53 < n < 2 ^ 53.

(** A name holds a whitespace character other than the space. *)
Definition other_whitespace (s : str) : bool :=
  existsb (fun c => is_whitespace c && negb (c =? space)%N) s.

(** Whitespace-to-underscore normalization of a name. *)
Definition normalized (s : str) : str :=
  List.map (fun c => if is_whitespace c then underscore else c) s.

(** Two sources whose names are equal, or equal once normalized. *)
Definition collide (a b : Source) : Prop :=
  name a = name b \/ normalized (name a) = normalized (name b).

(** The path of the image named [generatedN.<ext>] in the images directory. *)
Definition generated_path (self : Pipeline) (n : Z) (image_type : str) : str :=
  _image_path self (py "generated" ++ str_of_int n ++ py "." ++ image_type).

(** The image type a transform asks [_new] for. *)
Definition image_type_of (o : operation) : str :=
  match o with
  | To_jpg _ => py "jpg"
  | _ => py "png"
  end.

(** The color-type directive occurs in a command line. *)
Definition has_png_color (cmd : list str) : Prop :=
  exists before after, cmd = before ++ MAGICK_PNG_COLOR ++ after.

(** The directive is passed right before the output path, the last argument. *)
Definition png_color_before (out : str) (cmd : list str) : Prop :=
  exists before, cmd = before ++ MAGICK_PNG_COLOR ++ [out].

Definition is_transform (c : call) : bool :=
  match c with Transform _ => true | Get _ _ => false end.

(** The number of transforms among calls. *)
Definition transforms (cs : list call) : Z :=
  Z.of_nat (length (List.filter is_transform cs)).

(** The cache path of [get] for a spaceless source name and a size label. *)
Definition cache_path (self : Downlinx) (name_no_spaces size : str) : str :=
  _image_path (super self) (name_no_spaces ++ py "_" ++ size ++ py ".jpg").

(** The freshness test of [get] on the file at the cache path. *)
Definition fresh (source : Source) (path : str) (s : System) : bool :=
  match files s !! path with
  | Some modification_time =>
      seconds (datetime_sub (clock s) modification_time) <? interval source
  | None => false
  end.

(** The age of a file in whole seconds, as the specification means it. *)
Definition age_in_seconds (path : str) (s : System) : option Z :=
  modification_time ← files s !! path;
  Some ((clock s - modification_time) / 1000000).

(** A command line that runs curl. *)
Definition is_download (cmd : list str) : bool :=
  match cmd with
  | tool :: _ => bool_decide (tool = py "curl")
  | [] => false
  end.

(** A character of the decimal form of an integer: a digit or the sign. *)
Definition numeral_char (c : N) : bool := digit c || (c =? 45)%N.

(** The shape the five transforms share: a new path, one ImageMagick
    command line built around it, and the probe of the output. *)
Definition transform `{Environment} (image_type : str) (arguments : str -> list str)
  : M (Pipeline * System) Image :=
  out ← _new image_type;
  _ ← on_system (magick (arguments out));
  on_system (Image__init__ out).

(** The command line [magick] runs for arguments that start with
    ['convert']. *)
Definition magick_command `{Environment} (args : list str) : list str :=
  match LEGACY_IMAGE_MAGICK with
  | Some false => py "magick" :: args
  | _ => args
  end.

(** The image type a call asks [_new] for, if it is a transform. *)
Definition image_type_of_call (c : call) : option str :=
  match c with
  | Transform o => Some (image_type_of o)
  | Get _ _ => None
  end.

(** The number of calls that take a new generated name. *)
Fixpoint allocations {C} (alloc : C -> option str) (cs : list C) : Z :=
  match cs with
  | [] => 0
  | c :: cs' => match alloc c with Some _ => 1 | None => 0 end + allocations alloc cs'
  end.

(** A recipe of transforms and a recipe that mixes in downloads. *)
Definition demo_image : Image := mkImage (py "/home/u/photo.png") (mkSize 4000 3000).

Definition demo_operations : list operation :=
  [ Blank (py "black") (mkSize 1920 1080);
    Resize demo_image (mkSize 1440 1080);
    Place demo_image (mkPos 240 0) demo_image;
    To_jpg demo_image ].

Definition demo_calls : list call :=
  [ Get (py "GOES-East Full Disk") (py "large");
    Transform (Blank (py "black") (mkSize 1920 1080));
    Get (py "Himawari-8 Full Disk") (py "large");
    Transform (To_jpg demo_image) ].

(** The two recipes, run in the concrete environment from a count of 0. *)
Definition demo_operations_run : list Image * option exn * (Pipeline * System) :=
  run (perform (H := demo_environment)) demo_operations (demo_pipeline, empty_system 0).

Definition demo_calls_run : list Image * option exn * (Downlinx * System) :=
  run (perform_call (H := demo_environment)) demo_calls (demo_downlinx, empty_system 0).

(** ** Further properties, as predicates *)

(** [result] is the quotient [numer / denom] rounded down, or one less than
    the quotient when it is a whole number. *)
Definition proportional (numer denom result : Z) : Prop :=
  result = numer / denom \/ (numer mod denom = 0 /\ result = numer / denom - 1).

(** ** More of the module: dialect detection and the echo *)

(** [_is_legacy_imagemagick], from whether [find_executable] finds
    ['magick'] and ['convert']. *)
Definition _is_legacy_imagemagick (magick_found convert_found : bool) : option bool :=
  if magick_found then Some false
  else if convert_found then Some true
  else None.

Definition apostrophe : N := 39.
Definition backslash : N := 92.

(** [string.replace("'", "\\'")]. *)
Fixpoint escape_apostrophes (s : str) : str :=
  match s with
  | [] => []
  | c :: s' =>
      if (c =? apostrophe)%N then backslash :: apostrophe :: escape_apostrophes s'
      else c :: escape_apostrophes s'
  end.

(** [_quote_if_has_whitespace]. *)
Definition _quote_if_has_whitespace (s : str) : str :=
  if negb (_has_whitespace s) then s
  else [apostrophe] ++ escape_apostrophes s ++ [apostrophe].

(** The curl command line of [get]. *)
Definition curl_command (path address : str) : list str :=
  [py "curl"; py "-o"; path; address].

(** curl, when it succeeds, leaves the output file with the current time as
    its modification time. *)
Definition curl_stamps_output `{Environment} : Prop :=
  forall path address sys,
    fst (run_command (curl_command path address) sys) = true ->
    let sys' := snd (run_command (curl_command path address) sys) in
    files sys' !! path = Some (clock sys').

(** The command lines that run curl. *)
Definition downloads (s : System) : list (list str) :=
  List.filter is_download (calls s).

(** A machine that holds sources.json for the concrete pipeline. *)
Definition demo_init_system : System :=
  mkSystem {[ py "/home/u/simple/sources.json" := 0 ]} ∅ 0 [].

(** A catalog with a source refreshed once a day and one with interval
    zero, and a machine that holds an old download of each. *)
Definition demo_daily : Source :=
  mkSource (py "Blue Marble") {[ py "large" := py "https://cdn.example/marble.jpg" ]} 86400.

Definition demo_live : Source :=
  mkSource (py "Live") {[ py "large" := py "https://cdn.example/live.jpg" ]} 0.

Definition daily_downlinx : Downlinx := mkDownlinx demo_pipeline [demo_daily; demo_live].

Definition daily_system (now : Z) : System :=
  mkSystem {[ py "/home/u/simple/images/Blue_Marble_large.jpg" := 0;
              py "/home/u/simple/images/Live_large.jpg" := 0 ]}
    {[ py "/home/u/simple/images" ]} now [].


(* ===================================================================== *)
(** * Part II: properties *)
(* ===================================================================== *)

(** ** Sanity checks of the string layer *)

Example str_examples :
  str_of_int 0 = py "0" /\ str_of_int 1207 = py "1207" /\ str_of_int (-35) = py "-35"
  /\ path_join (py "/home/u/p") (py "images") = py "/home/u/p/images"
  /\ path_join (py "") (py "images") = py "images"
  /\ path_dirname (py "/home/u/p/images/generated0.png") = py "/home/u/p/images"
  /\ path_dirname (py "/x.png") = py "/" /\ path_dirname (py "x.png") = py ""
  /\ endswith (py "http://a/b.jpg") (py ".jpg") = true
  /\ _replace_spaces (py "GOES-East Full Disk") = Ok (py "GOES-East_Full_Disk").
Proof. repeat split; vm_compute; reflexivity. Qed.

(** ** Sanity checks of the geometry model *)

Example geometry_examples :
  scale_to_fit (mkSize 1000 500) (mkSize 800 800) = Ok (mkSize 800 400)
  /\ scale_to_fit (mkSize 5424 5424) (mkSize 1920 1080) = Ok (mkSize 1080 1080)
  /\ scale_to_height (mkSize 1 49) 49 = Ok (mkSize 0 49)
  /\ centering_offset (mkSize 6 7) (mkSize 3 10) None = Ok (mkPos (-1) 1)
  /\ centering_offset (mkSize 810 1080) (mkSize 1200 1920) (Some (mkPos 3760 240))
     = Ok (mkPos 3955 660)
  /\ scale_to_fit (mkSize 4 0) (mkSize 3 3) = Raise ZeroDivisionError
  /\ aspect_ratio (mkSize (2 ^ 1024) 1) = Raise OverflowError.
Proof. repeat split; vm_compute; reflexivity. Qed.

(** ** Facts on binary64 rounding *)

Section float_facts.
Local Open Scope Q_scope.

Lemma pow2_pos z : 0 < pow2 z.
Proof. apply Qpower_0_lt. reflexivity. Qed.

Lemma pow2_add a b : pow2 (a + b) == pow2 a * pow2 b.
Proof. apply Qpower_plus. discriminate. Qed.

Lemma pow2_le a b : (a <= b)%Z -> pow2 a <= pow2 b.
Proof. intros. apply Qpower_le_compat_l; [assumption | discriminate]. Qed.

Lemma pow2_lt a b : (a < b)%Z -> pow2 a < pow2 b.
Proof. intros. apply Qpower_lt_compat_l; [assumption | reflexivity]. Qed.

Lemma pow2_lt_inv a b : pow2 a < pow2 b -> (a < b)%Z.
Proof. intros. destruct (Z_lt_le_dec a b) as [|H1]; [assumption|]. apply pow2_le in H1. lra. Qed.

Lemma pow2_Z n : (0 <= n)%Z -> pow2 n == inject_Z (2 ^ n).
Proof. intros. unfold pow2. rewrite Zpower_Qpower by assumption. reflexivity. Qed.

Lemma pow2_succ a : pow2 (a + 1) == 2 * pow2 a.
Proof. rewrite pow2_add. unfold pow2 at 2. simpl. lra. Qed.

Lemma rhe_near x : - (1#2) <= inject_Z (round_half_even x) - x <= 1#2.
Proof.
  unfold round_half_even; cbv zeta.
  pose proof (Qfloor_le x) as H1. pose proof (Qlt_floor x) as H2.
  rewrite inject_Z_plus in H2. change (inject_Z 1) with 1 in H2.
  destruct (Qcompare_spec (x - inject_Z (Qfloor x)) (1#2)) as [E|E|E];
    [destruct (Z.even (Qfloor x))| |];
    rewrite ?inject_Z_plus; change (inject_Z 1) with 1; lra.
Qed.

Lemma rhe_le_int x n : x <= inject_Z n -> (round_half_even x <= n)%Z.
Proof.
  intros H. unfold round_half_even; cbv zeta.
  pose proof (Qfloor_le x) as H1. pose proof (Qlt_floor x) as H2.
  rewrite inject_Z_plus in H2. change (inject_Z 1) with 1 in H2.
  assert (Hf : (Qfloor x <= n)%Z) by (rewrite Zle_Qle; lra).
  assert (Hc : inject_Z (Qfloor x) < x -> (Qfloor x + 1 <= n)%Z).
  { intros. assert (inject_Z (Qfloor x) < inject_Z n) by lra.
    rewrite <- Zlt_Qlt in H3. lia. }
  destruct (Qcompare_spec (x - inject_Z (Qfloor x)) (1#2)) as [E|E|E].
  - destruct (Z.even (Qfloor x)); [assumption | apply Hc; lra].
  - assumption.
  - apply Hc; lra.
Qed.

Lemma rhe_ge_int x n : inject_Z n <= x -> (n <= round_half_even x)%Z.
Proof.
  intros H. unfold round_half_even; cbv zeta.
  assert (Hf : (n <= Qfloor x)%Z).
  { rewrite <- (Qfloor_Z n). apply Qfloor_resp_le. assumption. }
  destruct (Qcompare (x - inject_Z (Qfloor x)) (1#2)); [destruct (Z.even _)| |]; lia.
Qed.

Lemma ilog2_spec x : 0 < x -> pow2 (ilog2 x) <= x < pow2 (ilog2 x + 1).
Proof.
  intros Hx. unfold ilog2.
  destruct x as [n d]. cbn [Qnum Qden].
  assert (Hn : (0 < n)%Z) by (unfold Qlt in Hx; simpl in Hx; lia).
  destruct (Z.log2_spec n Hn) as [Ha1 Ha2].
  destruct (Z.log2_spec (Zpos d) (Pos2Z.is_pos d)) as [Hb1 Hb2].
  pose proof (Z.log2_nonneg n) as Ha0. pose proof (Z.log2_nonneg (Zpos d)) as Hb0.
  set (a := Z.log2 n) in *. set (b := Z.log2 (Zpos d)) in *.
  assert (Hxd : (n # d) * inject_Z (Zpos d) == inject_Z n).
  { rewrite (Qmake_Qdiv n d). field. discriminate. }
  rewrite Zle_Qle, <- pow2_Z in Ha1, Hb1 by assumption.
  rewrite Zlt_Qlt, <- pow2_Z in Ha2, Hb2 by lia.
  unfold Z.succ in *.
  pose proof (pow2_pos a). pose proof (pow2_pos b).
  pose proof (pow2_pos (a - b)). pose proof (pow2_pos (a - b - 1)).
  assert (E1 : pow2 a == pow2 (a - b) * pow2 b) by (rewrite <- pow2_add; f_equiv; lia).
  assert (E2 : pow2 (a - b) == 2 * pow2 (a - b - 1)) by (rewrite <- pow2_succ; f_equiv; lia).
  assert (E3 : pow2 (a - b + 1) == 2 * pow2 (a - b)) by apply pow2_succ.
  assert (E4 : pow2 (a + 1) == 2 * pow2 a) by apply pow2_succ.
  assert (E5 : pow2 (b + 1) == 2 * pow2 b) by apply pow2_succ.
  set (x := n # d) in *. set (D := inject_Z (Zpos d)) in *. set (N := inject_Z n) in *.
  assert (Hup : x < pow2 (a - b + 1)).
  { destruct (Qlt_le_dec x (pow2 (a - b + 1))) as [|Hc]; [assumption|exfalso].
    assert (pow2 (a - b + 1) * pow2 b <= x * D) by nra. nra. }
  assert (Hlo : pow2 (a - b - 1) <= x).
  { destruct (Qlt_le_dec x (pow2 (a - b - 1))) as [Hc|]; [exfalso|assumption].
    assert (x * D < pow2 (a - b - 1) * pow2 (b + 1)) by nra. nra. }
  destruct (Qle_bool (pow2 (a - b)) x) eqn:Hk.
  - apply Qle_bool_iff in Hk. split; assumption.
  - assert (Hk' : x < pow2 (a - b)).
    { apply Qnot_le_lt. intros Hc. apply Qle_bool_iff in Hc. congruence. }
    split; [assumption|]. replace (a - b - 1 + 1)%Z with (a - b)%Z by lia. assumption.
Qed.

Lemma on_grid m q e :
  (0 < m < 2 ^ 53)%Z -> (-1074 <= q)%Z ->
  e = (-1074)%Z \/ pow2 (e + 52) <= inject_Z m * pow2 q ->
  exists n, inject_Z m * pow2 q == inject_Z n * pow2 e.
Proof.
  intros Hm Hq He.
  destruct (Z_le_gt_dec e q) as [Heq|Heq].
  - exists (m * 2 ^ (q - e))%Z.
    rewrite inject_Z_mult, <- pow2_Z by lia.
    rewrite <- Qmult_assoc, <- pow2_add. replace (q - e + e)%Z with q by lia. reflexivity.
  - exfalso. destruct He as [He|He]; [lia|].
    assert (H1 : inject_Z m < pow2 53).
    { rewrite pow2_Z by lia. rewrite <- Zlt_Qlt. lia. }
    assert (H2 : pow2 (e + 52) < pow2 (53 + q)).
    { rewrite (pow2_add 53 q). pose proof (pow2_pos q). nra. }
    apply pow2_lt_inv in H2. lia.
Qed.

Lemma round_pos_le x c : 0 < x -> x <= c -> representable c -> round_pos x <= c.
Proof.
  intros Hx Hxc (m & q & Hc & Hm & Hq). unfold round_pos.
  set (e := Z.max (ilog2 x - 52) (-1074)).
  destruct (ilog2_spec x Hx) as [Hl _].
  destruct (on_grid m q e Hm Hq) as [n Hn].
  { destruct (Z.max_spec (ilog2 x - 52) (-1074)) as [[_ E]|[_ E]]; fold e in E.
    - left; assumption.
    - right. rewrite E. replace (ilog2 x - 52 + 52)%Z with (ilog2 x) by lia. lra. }
  pose proof (pow2_pos e) as He.
  assert (Hr : (round_half_even (x / pow2 e) <= n)%Z).
  { apply rhe_le_int. apply Qle_shift_div_r; [assumption | lra]. }
  rewrite Zle_Qle in Hr. nra.
Qed.

Lemma round_pos_ge x c : 0 < c -> c <= x -> representable c -> c <= round_pos x.
Proof.
  intros Hc0 Hxc (m & q & Hc & Hm & Hq).
  assert (Hx : 0 < x) by lra. unfold round_pos.
  set (e := Z.max (ilog2 x - 52) (-1074)).
  destruct (ilog2_spec x Hx) as [Hl _].
  pose proof (pow2_pos e) as He.
  destruct (Z.max_spec (ilog2 x - 52) (-1074)) as [[Hlt E]|[Hlt E]]; fold e in E.
  - destruct (on_grid m q e Hm Hq) as [n Hn]; [left; assumption|].
    assert (Hr : (n <= round_half_even (x / pow2 e))%Z).
    { apply rhe_ge_int. apply Qle_shift_div_l; [assumption | lra]. }
    rewrite Zle_Qle in Hr. nra.
  - assert (Hg : pow2 (e + 52) == inject_Z (2 ^ 52) * pow2 e).
    { rewrite <- pow2_Z by lia. rewrite Z.add_comm. apply pow2_add. }
    assert (Hr : (2 ^ 52 <= round_half_even (x / pow2 e))%Z).
    { apply rhe_ge_int. apply Qle_shift_div_l; [assumption|].
      rewrite <- Hg, E. replace (ilog2 x - 52 + 52)%Z with (ilog2 x) by lia. assumption. }
    rewrite Zle_Qle in Hr.
    destruct (Qlt_le_dec c (pow2 (e + 52))) as [Hs|Hs].
    + nra.
    + destruct (on_grid m q e Hm Hq) as [n Hn]; [right; lra|].
      assert (Hr' : (n <= round_half_even (x / pow2 e))%Z).
      { apply rhe_ge_int. apply Qle_shift_div_l; [assumption | lra]. }
      rewrite Zle_Qle in Hr'. nra.
Qed.

Lemma round_pos_exact x : 0 < x -> representable x -> round_pos x == x.
Proof.
  intros Hx Hr. apply Qle_antisym.
  - apply round_pos_le; [assumption | lra | assumption].
  - apply round_pos_ge; [assumption | lra | assumption].
Qed.

Lemma round_pos_error x :
  pow2 (-1022) <= x ->
  x - x * pow2 (-53) <= round_pos x <= x + x * pow2 (-53).
Proof.
  intros Hn. pose proof (pow2_pos (-1022)) as Hp.
  assert (Hx : 0 < x) by lra.
  destruct (ilog2_spec x Hx) as [Hl Hu].
  assert (He : (-1022 <= ilog2 x)%Z).
  { assert (pow2 (-1022) < pow2 (ilog2 x + 1)) by lra.
    apply pow2_lt_inv in H. lia. }
  unfold round_pos. rewrite Z.max_l by lia.
  set (e := (ilog2 x - 52)%Z).
  pose proof (pow2_pos e) as Hpe.
  pose proof (rhe_near (x / pow2 e)) as Hr.
  assert (Hd : x / pow2 e * pow2 e == x) by (field; lra).
  assert (Hg : pow2 (ilog2 x) == pow2 53 * pow2 (e - 1)).
  { rewrite <- pow2_add. unfold e. f_equiv. lia. }
  assert (Hh : pow2 e == 2 * pow2 (e - 1)).
  { rewrite <- pow2_succ. f_equiv. lia. }
  assert (H53 : pow2 53 * pow2 (-53) == 1) by reflexivity.
  pose proof (pow2_pos (e - 1)). pose proof (pow2_pos (-53)). pose proof (pow2_pos 53).
  set (y := x / pow2 e) in *. set (r := inject_Z (round_half_even y)) in *.
  assert (Hb : pow2 (e - 1) <= x * pow2 (-53)).
  { assert (pow2 53 * pow2 (e - 1) * pow2 (-53) <= x * pow2 (-53)) by nra.
    nra. }
  split; nra.
Qed.

End float_facts.

(** ** Facts on the float operations of the module *)

Section float_ops.
Local Open Scope Q_scope.

Lemma round_pos_nonneg x : 0 < x -> 0 <= round_pos x.
Proof.
  intros Hx. unfold round_pos.
  set (e := Z.max (ilog2 x - 52) (-1074)). pose proof (pow2_pos e) as He.
  assert (Hr : (0 <= round_half_even (x / pow2 e))%Z).
  { apply rhe_ge_int. apply Qle_shift_div_l; [assumption|].
    change (inject_Z 0) with 0. lra. }
  rewrite Zle_Qle in Hr. change (inject_Z 0) with 0 in Hr. nra.
Qed.

Lemma round64_pos x : 0 < x -> round64 x = round_pos x.
Proof.
  destruct x as [[|n|n] d]; unfold Qlt; simpl; intros; try lia. reflexivity.
Qed.

Lemma round64_neg x : x < 0 -> round64 x = - round_pos (- x).
Proof.
  destruct x as [[|n|n] d]; unfold Qlt; simpl; intros; try lia. reflexivity.
Qed.

Lemma round64_zero x : x == 0 -> round64 x = 0.
Proof.
  destruct x as [[|n|n] d]; unfold Qeq; simpl; intros; try lia. reflexivity.
Qed.

Lemma Qnegative_spec q : Qnegative q = true <-> q < 0.
Proof.
  unfold Qnegative, Qlt. simpl. rewrite Z.ltb_lt. lia.
Qed.

Lemma Qzero_spec q : Qzero q = true <-> q == 0.
Proof.
  unfold Qzero, Qeq. simpl. rewrite Z.eqb_eq. lia.
Qed.

Lemma pow2_1024_big c m q :
  c == inject_Z m * pow2 q -> (0 < m < 2 ^ 53)%Z -> (q <= 970)%Z -> c < pow2 1024.
Proof.
  intros Hc Hm Hq.
  assert (H1 : inject_Z m < pow2 53).
  { rewrite pow2_Z by lia. rewrite <- Zlt_Qlt. lia. }
  pose proof (pow2_le q 970 Hq) as H2. pose proof (pow2_pos q) as H3.
  assert (H4 : pow2 53 * pow2 970 < pow2 1024).
  { rewrite <- pow2_add. apply pow2_lt. lia. }
  assert (0 < inject_Z m) by (change 0 with (inject_Z 0); rewrite <- Zlt_Qlt; lia).
  nra.
Qed.

(** Rounding a positive exact result that lies below a float [c] of
    moderate size gives a finite float, still below [c]. *)
Lemma to_float_pos x c :
  0 < x -> x <= c -> representable c -> c < pow2 1024 ->
  to_float x = Finite (round_pos x) /\ 0 <= round_pos x <= c.
Proof.
  intros Hx Hxc Hc Hb.
  pose proof (round_pos_nonneg x Hx) as H0.
  pose proof (round_pos_le x c Hx Hxc Hc) as H1.
  split; [|split; assumption].
  unfold to_float. rewrite (round64_pos x Hx). cbv zeta.
  destruct (Qle_bool (pow2 1024) (Qabs (round_pos x))) eqn:E; [|reflexivity].
  apply Qle_bool_iff in E. rewrite Qabs_pos in E by assumption. lra.
Qed.

Lemma to_float_neg x c :
  x < 0 -> - x <= c -> representable c -> c < pow2 1024 ->
  to_float x = Finite (- round_pos (- x)) /\ 0 <= round_pos (- x) <= c.
Proof.
  intros Hx Hxc Hc Hb.
  assert (Hx' : 0 < - x) by lra.
  pose proof (round_pos_nonneg _ Hx') as H0.
  pose proof (round_pos_le _ c Hx' Hxc Hc) as H1.
  split; [|split; assumption].
  unfold to_float. rewrite (round64_neg x Hx). cbv zeta.
  destruct (Qle_bool (pow2 1024) (Qabs (- round_pos (- x)))) eqn:E; [|reflexivity].
  apply Qle_bool_iff in E. rewrite Qabs_opp, Qabs_pos in E by assumption. lra.
Qed.

Lemma to_float_zero x : x == 0 -> to_float x = Finite 0.
Proof. intros Hx. unfold to_float. rewrite (round64_zero x Hx). reflexivity. Qed.

Lemma representable_Z n : (0 < n < 2 ^ 53)%Z -> representable (inject_Z n).
Proof.
  intros Hn. exists n, 0%Z. split; [|split; [assumption | lia]].
  change (pow2 0) with 1. lra.
Qed.

Lemma representable_half n :
  (0 < n < 2 ^ 53)%Z -> representable (inject_Z n * (1 # 2)).
Proof.
  intros Hn. exists n, (-1)%Z. split; [|split; [assumption | lia]].
  change (pow2 (-1)) with (1 # 2). reflexivity.
Qed.

Lemma representable_eq a b : a == b -> representable a -> representable b.
Proof.
  intros E (m & q & H & Hm & Hq). exists m, q. split; [|split; assumption].
  rewrite <- E. assumption.
Qed.

(** Exactly representable results are not changed by rounding. *)
Lemma to_float_exact x c :
  Qabs x <= c -> representable c -> c < pow2 1024 ->
  x == 0 \/ representable (Qabs x) ->
  exists r, to_float x = Finite r /\ r == x.
Proof.
  intros Hxc Hc Hb Hx.
  destruct (Q_dec x 0) as [[Hs|Hs]|Hs].
  - assert (Ha : Qabs x == - x) by (apply Qabs_neg; lra).
    rewrite Ha in Hxc.
    destruct Hx as [Hx|Hx]; [lra|]. apply (representable_eq _ _ Ha) in Hx.
    destruct (to_float_neg x c Hs Hxc Hc Hb) as [E _].
    exists (- round_pos (- x)). split; [assumption|].
    assert (Hs' : 0 < - x) by lra.
    pose proof (round_pos_exact (- x) Hs' Hx). lra.
  - assert (Ha : Qabs x == x) by (apply Qabs_pos; lra).
    rewrite Ha in Hxc.
    destruct Hx as [Hx|Hx]; [lra|]. apply (representable_eq _ _ Ha) in Hx.
    destruct (to_float_pos x c Hs Hxc Hc Hb) as [E _].
    exists (round_pos x). split; [assumption|].
    apply round_pos_exact; assumption.
  - exists 0. split; [apply to_float_zero; assumption | lra].
Qed.


Lemma pow2_52_repr : representable (pow2 52) /\ pow2 52 < pow2 1024.
Proof.
  split; [|apply pow2_lt; lia].
  exists 1%Z, 52%Z. split; [|split; lia]. change (inject_Z 1) with 1. lra.
Qed.

(** Half of an integer below 2^53 in magnitude is a float. *)
Lemma to_float_half x n :
  x == inject_Z n * (1 # 2) -> (- 2 ^ 53 < n < 2 ^ 53)%Z ->
  exists r, to_float x = Finite r /\ r == inject_Z n * (1 # 2).
Proof.
  intros Hx Hn.
  assert (Ha : Qabs x == inject_Z (Z.abs n) * (1 # 2)).
  { rewrite Hx, Qabs_Qmult. reflexivity. }
  assert (Hb : inject_Z (Z.abs n) <= inject_Z (2 ^ 53)) by (rewrite <- Zle_Qle; lia).
  destruct pow2_52_repr as [Hr Hlt].
  destruct (to_float_exact x (pow2 52)) as (r & E & Hre); try assumption.
  - assert (Hp : pow2 52 == inject_Z (2 ^ 53) * (1 # 2)) by (vm_compute; reflexivity).
    rewrite Ha, Hp. set (B := inject_Z (2 ^ 53)) in *. lra.
  - destruct (Z.eq_dec n 0%Z) as [->|Hnz].
    + left. rewrite Hx. reflexivity.
    + right. apply (representable_eq (inject_Z (Z.abs n) * (1 # 2))); [symmetry; assumption|].
      apply representable_half. lia.
  - exists r. split; [assumption | lra].
Qed.

Lemma Qtruncate_half r n : r == inject_Z n * (1 # 2) -> Qtruncate r = (n ÷ 2)%Z.
Proof.
  intros Hr. unfold Qtruncate.
  destruct (Qnegative r) eqn:E.
  - apply Qnegative_spec in E.
    assert (Hn : (n < 0)%Z).
    { destruct (Z_lt_le_dec n 0) as [|Hc]; [assumption|exfalso].
      rewrite Zle_Qle in Hc. change (inject_Z 0) with 0 in Hc. lra. }
    unfold Qceiling.
    assert (Hr' : - r == inject_Z (- n) / inject_Z 2).
    { rewrite Hr, inject_Z_opp. change (inject_Z 2) with 2. field. }
    rewrite Hr', <- Zdiv_Qdiv.
    rewrite <- (Z.quot_div_nonneg (- n) 2) by lia.
    rewrite Z.quot_opp_l by lia. lia.
  - assert (Hn : (0 <= n)%Z).
    { destruct (Z_lt_le_dec n 0) as [Hc|]; [exfalso|assumption].
      assert (r < 0).
      { rewrite Zlt_Qlt in Hc. change (inject_Z 0) with 0 in Hc. lra. }
      apply Qnegative_spec in H. congruence. }
    assert (Hr' : r == inject_Z n / inject_Z 2) by (rewrite Hr; reflexivity).
    rewrite Hr', <- Zdiv_Qdiv. symmetry. apply Z.quot_div_nonneg; lia.
Qed.

Lemma centering_axis_exact image frame :
  (- 2 ^ 53 < image < 2 ^ 53)%Z -> (- 2 ^ 53 < frame < 2 ^ 53)%Z ->
  (- 2 ^ 53 < frame - image < 2 ^ 53)%Z ->
  centering_axis image frame = Ok ((frame - image) ÷ 2)%Z.
Proof.
  intros Hi Hf Hd. unfold centering_axis, int_truediv. simpl.
  destruct (to_float_half (inject_Z frame / inject_Z 2) frame) as (rf & Ef & Hrf);
    [reflexivity | assumption |].
  destruct (to_float_half (inject_Z image / inject_Z 2) image) as (ri & Ei & Hri);
    [reflexivity | assumption |].
  rewrite Ef, Ei. simpl.
  destruct (to_float_half (rf - ri) (frame - image)) as (rd & Ed & Hrd); [|assumption|].
  { rewrite Hrf, Hri. unfold Z.sub. rewrite inject_Z_plus, inject_Z_opp. ring. }
  rewrite Ed. simpl. f_equal. apply Qtruncate_half. assumption.
Qed.


Lemma float_of_int_pos n :
  (0 < n < 2 ^ 53)%Z -> exists q, float_of_int n = Ok (Finite q) /\ q == inject_Z n.
Proof.
  intros Hn. pose proof (representable_Z n Hn) as Hr.
  assert (H0 : 0 < inject_Z n) by (change 0 with (inject_Z 0); rewrite <- Zlt_Qlt; lia).
  destruct (to_float_exact (inject_Z n) (inject_Z n)) as (r & E & Hre).
  - rewrite Qabs_pos; lra.
  - assumption.
  - apply (pow2_1024_big _ n 0%Z); [change (pow2 0) with 1; lra | assumption | lia].
  - right. apply (representable_eq (inject_Z n)); [|assumption].
    symmetry. apply Qabs_pos. lra.
  - exists r. unfold float_of_int. rewrite E. split; [reflexivity | assumption].
Qed.

(** The aspect ratio of a size with components below 2^52 is the exact
    ratio [t] up to one rounding. *)
Lemma aspect_ratio_pos s :
  (0 < w s < 2 ^ 52)%Z -> (0 < h s < 2 ^ 52)%Z ->
  exists a t, aspect_ratio s = Ok (Finite a)
    /\ t * inject_Z (h s) == inject_Z (w s) /\ 0 < t
    /\ t - t * eps <= a <= t + t * eps.
Proof.
  intros Hw Hh. unfold aspect_ratio.
  destruct (float_of_int_pos (w s)) as (qw & Ew & Hqw); [lia|].
  destruct (float_of_int_pos (h s)) as (qh & Eh & Hqh); [lia|].
  rewrite Ew, Eh. simpl.
  assert (Hw1 : 1 <= inject_Z (w s) <= 4503599627370496).
  { change 1 with (inject_Z 1). change 4503599627370496 with (inject_Z (2 ^ 52)).
    rewrite <- !Zle_Qle. lia. }
  assert (Hh1 : 1 <= inject_Z (h s) <= 4503599627370496).
  { change 1 with (inject_Z 1). change 4503599627370496 with (inject_Z (2 ^ 52)).
    rewrite <- !Zle_Qle. lia. }
  destruct (Qzero qh) eqn:Ez; [apply Qzero_spec in Ez; lra|].
  set (t := qw / qh).
  assert (Ht : t * inject_Z (h s) == inject_Z (w s)).
  { unfold t. rewrite <- Hqw, <- Hqh. field. lra. }
  assert (Ht0 : 0 < t) by nra.
  assert (Htu : t <= pow2 52).
  { change (pow2 52) with 4503599627370496. nra. }
  assert (Htl : pow2 (-1022) <= t).
  { apply Qle_trans with (pow2 (-52)); [apply pow2_le; lia|].
    change (pow2 (-52)) with (1 # 4503599627370496). nra. }
  destruct pow2_52_repr as [Hr Hlt].
  destruct (to_float_pos t (pow2 52) Ht0 Htu Hr Hlt) as [E _].
  exists (round_pos t), t. rewrite E.
  split; [reflexivity|]. split; [assumption|]. split; [assumption|].
  apply (round_pos_error t Htl).
Qed.

Lemma Qtruncate_below r n :
  0 <= r -> r <= inject_Z (2 * n + 1) * (1 # 2) -> (Qtruncate r <= n)%Z.
Proof.
  intros H0 Hr. unfold Qtruncate.
  destruct (Qnegative r) eqn:E; [apply Qnegative_spec in E; lra|].
  pose proof (Qfloor_le r) as Hf.
  assert (Hlt : inject_Z (Qfloor r) < inject_Z (n + 1)).
  { rewrite inject_Z_plus. rewrite inject_Z_plus, inject_Z_mult in Hr.
    change (inject_Z 1) with 1 in *. change (inject_Z 2) with 2 in *. lra. }
  rewrite <- Zlt_Qlt in Hlt. lia.
Qed.


Lemma half_above_repr n :
  (0 < n < 2 ^ 52)%Z ->
  representable (inject_Z (2 * n + 1) * (1 # 2))
  /\ inject_Z (2 * n + 1) * (1 # 2) < pow2 1024.
Proof.
  intros Hn. split.
  - apply representable_half. lia.
  - apply (pow2_1024_big _ (2 * n + 1) (-1)%Z); [reflexivity | lia | lia].
Qed.

End float_ops.

(** ** The geometry model: [scale_to_fit] and [centering_offset] *)

Section geometry_facts.
Local Open Scope Q_scope.

(** C5, as amended: for sizes whose four components are positive and below
    2^52, [scale_to_fit] returns a size that fits in the bounding box, with
    equality on at least one axis. *)
Theorem scale_to_fit_within (orig box : Size) :
  (0 < w orig < 2 ^ 52)%Z -> (0 < h orig < 2 ^ 52)%Z ->
  (0 < w box < 2 ^ 52)%Z -> (0 < h box < 2 ^ 52)%Z ->
  exists fit, scale_to_fit orig box = Ok fit /\ fits_in fit box.
Proof.
  intros Hw Hh HW HH.
  destruct (aspect_ratio_pos orig Hw Hh) as (a & t & Ea & Ht & Ht0 & Hta).
  destruct (aspect_ratio_pos box HW HH) as (b & u & Eb & Hu & Hu0 & Hub).
  assert (HW1 : 1 <= inject_Z (w box) <= 4503599627370495).
  { change 1 with (inject_Z 1). change 4503599627370495 with (inject_Z (2 ^ 52 - 1)).
    rewrite <- !Zle_Qle. lia. }
  assert (HH1 : 1 <= inject_Z (h box) <= 4503599627370495).
  { change 1 with (inject_Z 1). change 4503599627370495 with (inject_Z (2 ^ 52 - 1)).
    rewrite <- !Zle_Qle. lia. }
  unfold eps in *.
  assert (Ha0 : 0 < a) by nra.
  assert (Hz : Qzero a = false).
  { destruct (Qzero a) eqn:Ez; [apply Qzero_spec in Ez; lra | reflexivity]. }
  unfold scale_to_fit. rewrite Ea, Eb. simpl.
  destruct (Qle_bool a b) eqn:G; simpl.
  - (* the box is relatively wider: fit the height *)
    apply Qle_bool_iff in G.
    unfold scale_to_height. rewrite Ea. simpl.
    destruct (float_of_int_pos (h box)) as (qH & EH & HqH); [lia|].
    rewrite EH. simpl.
    set (x2 := qH * a).
    assert (Hx0 : 0 < x2) by (unfold x2; nra).
    assert (Hx1 : x2 <= inject_Z (h box) * (u + u * (1 # 9007199254740992))).
    { unfold x2. rewrite HqH. nra. }
    assert (Hx2 : x2 <= inject_Z (2 * w box + 1) * (1 # 2)).
    { rewrite inject_Z_plus, inject_Z_mult.
      change (inject_Z 1) with 1. change (inject_Z 2) with 2. nra. }
    destruct (half_above_repr (w box) HW) as [Hr Hb].
    destruct (to_float_pos x2 _ Hx0 Hx2 Hr Hb) as [E [Hr0 Hr1]].
    rewrite E. simpl. eexists. split; [reflexivity|]. unfold fits_in. simpl.
    split; [apply Qtruncate_below; assumption|]. split; [lia | right; reflexivity].
  - (* the image is relatively wider: fit the width *)
    assert (G' : b < a).
    { apply Qnot_le_lt. intros Hc. apply Qle_bool_iff in Hc. congruence. }
    unfold scale_to_width. rewrite Ea. simpl.
    destruct (float_of_int_pos (w box)) as (qW & EW & HqW); [lia|].
    rewrite EW. simpl. rewrite Hz.
    set (x1 := qW / a).
    assert (Hxa : x1 * a == inject_Z (w box)).
    { unfold x1. rewrite <- HqW. field. lra. }
    assert (Hx0 : 0 < x1) by nra.
    assert (Hx1 : x1 * (u * (1 - (1 # 9007199254740992))) < u * inject_Z (h box)) by nra.
    assert (Hx2 : x1 * (1 - (1 # 9007199254740992)) < inject_Z (h box)) by nra.
    assert (Hx3 : x1 <= inject_Z (2 * h box + 1) * (1 # 2)).
    { rewrite inject_Z_plus, inject_Z_mult.
      change (inject_Z 1) with 1. change (inject_Z 2) with 2. lra. }
    destruct (half_above_repr (h box) HH) as [Hr Hb].
    destruct (to_float_pos x1 _ Hx0 Hx3 Hr Hb) as [E [Hr0 Hr1]].
    rewrite E. simpl. eexists. split; [reflexivity|]. unfold fits_in. simpl.
    split; [lia|]. split; [apply Qtruncate_below; assumption | left; reflexivity].
Qed.

End geometry_facts.

Lemma scale_to_fit_within_witness :
  exists fit, scale_to_fit (mkSize 1000 500) (mkSize 800 800) = Ok fit
    /\ fits_in fit (mkSize 800 800).
Proof. apply scale_to_fit_within; simpl; lia. Defined.

(** C5, as stated, fails: float arithmetic rounds a width of 2^53 + 3 up to
    2^53 + 4, and the result is wider than the bounding box. *)
Lemma scale_to_fit_exceeds_box :
  scale_to_fit (mkSize (2 ^ 53 + 3) 1) (mkSize (2 ^ 53 + 3) 1)
    = Ok (mkSize (2 ^ 53 + 4) 1)
  /\ ~ fits_in (mkSize (2 ^ 53 + 4) 1) (mkSize (2 ^ 53 + 3) 1).
Proof.
  split; [vm_compute; reflexivity|].
  unfold fits_in. simpl. lia.
Qed.

(** C7, as amended: when the components of both sizes and their per-axis
    differences are below 2^53 in magnitude, [centering_offset] is the frame
    offset plus half the difference of the sizes, each axis truncated toward
    zero; a call without frame offset is a call with offset (0, 0). *)
Theorem centering_offset_centered (image_size frame_size : Size) (frame_offset : Pos) :
  small (w image_size) -> small (h image_size) ->
  small (w frame_size) -> small (h frame_size) ->
  small (w frame_size - w image_size) -> small (h frame_size - h image_size) ->
  centering_offset image_size frame_size (Some frame_offset)
    = Ok (centered image_size frame_size frame_offset)
  /\ centering_offset image_size frame_size None
    = Ok (centered image_size frame_size (mkPos 0 0)).
Proof.
  unfold small. intros Hiw Hih Hfw Hfh Hdw Hdh.
  unfold centering_offset, centered.
  rewrite (centering_axis_exact _ _ Hiw Hfw Hdw), (centering_axis_exact _ _ Hih Hfh Hdh).
  split; reflexivity.
Qed.

Lemma centering_offset_centered_witness :
  centering_offset (mkSize 810 1081) (mkSize 1200 1920) (Some (mkPos 3760 240))
    = Ok (mkPos 3955 659)
  /\ centering_offset (mkSize 810 1081) (mkSize 1200 1920) None = Ok (mkPos 195 419).
Proof.
  apply (centering_offset_centered (mkSize 810 1081) (mkSize 1200 1920) (mkPos 3760 240));
    unfold small; simpl; lia.
Defined.

(** C7, as stated, fails: for a frame 2^53 + 1 wide the halves are rounded,
    and the offset is one less than the truncated half difference. *)
Lemma centering_offset_rounds :
  centering_offset (mkSize 1 1) (mkSize (2 ^ 53 + 1) 1) None = Ok (mkPos (2 ^ 52 - 1) 0)
  /\ centered (mkSize 1 1) (mkSize (2 ^ 53 + 1) 1) (mkPos 0 0) = mkPos (2 ^ 52) 0.
Proof. split; vm_compute; reflexivity. Qed.

(** ** Names: [_replace_spaces] and [_assert_unique_names] *)

Lemma has_whitespace_replaced s :
  _has_whitespace (str_replace space underscore s) = other_whitespace s.
Proof.
  unfold _has_whitespace, other_whitespace, str_replace.
  induction s as [|c s IH]; [reflexivity|]. cbn [List.map existsb]. rewrite IH. f_equal.
  destruct (N.eqb_spec c space) as [->|Hc]; [reflexivity|].
  rewrite andb_true_r. reflexivity.
Qed.

Lemma _replace_spaces_eq s :
  _replace_spaces s
  = if other_whitespace s then Raise AssertionError else Ok (str_replace space underscore s).
Proof.
  unfold _replace_spaces, _assert_no_whitespace. rewrite has_whitespace_replaced.
  destruct (other_whitespace s); reflexivity.
Qed.

Lemma normalized_replaced s :
  other_whitespace s = false -> normalized s = str_replace space underscore s.
Proof.
  unfold other_whitespace, normalized, str_replace.
  induction s as [|c s IH]; [reflexivity|]. cbn [List.map existsb].
  intros Hs. apply orb_false_elim in Hs as [Hc Hs]. rewrite (IH Hs). f_equal.
  destruct (N.eqb_spec c space) as [->|Hne]; [reflexivity|].
  rewrite andb_true_r in Hc. rewrite Hc. reflexivity.
Qed.

(** When the loop of [_assert_unique_names] passes, the names it visited
    have no whitespace but spaces, their spaceless forms are new to the set
    and pairwise distinct. *)
Lemma unique_names_loop_passes todo U V :
  unique_names_loop todo U V = Ok tt ->
  Forall (fun s => other_whitespace (name s) = false
                   /\ str_replace space underscore (name s) ∉ V) todo
  /\ NoDup (List.map (fun s => str_replace space underscore (name s)) todo).
Proof.
  revert U V. induction todo as [|s todo IH]; intros U V Hl.
  - split; constructor.
  - cbn [unique_names_loop] in Hl. rewrite _replace_spaces_eq in Hl.
    destruct (other_whitespace (name s)) eqn:Hw; [discriminate|]. cbn in Hl.
    destruct (bool_decide (name s ∈ U)); [discriminate|].
    destruct (bool_decide_reflect (str_replace space underscore (name s) ∈ V)) as [|HV];
      [discriminate|].
    apply IH in Hl as [Hall Hnd]. split.
    + constructor; [split; assumption|].
      eapply Forall_impl; [exact Hall|]. cbn. intros a [Ha1 Ha2]. split; [assumption|].
      intros HinV. apply Ha2, elem_of_union. right. assumption.
    + cbn [List.map]. constructor; [|assumption].
      intros Hin. apply list_elem_of_In, in_map_iff in Hin as (a & Ea & Hin).
      apply list_elem_of_In in Hin.
      rewrite Forall_forall in Hall. destruct (Hall a Hin) as [_ Hn].
      apply Hn, elem_of_union. left. apply elem_of_singleton. congruence.
Qed.

Lemma outcome_unit_raised (r : outcome unit) : raised r = false -> r = Ok tt.
Proof. destruct r as [[]|]; [reflexivity | discriminate]. Qed.

Lemma unique_names_collision (self : Downlinx) i j a b :
  i ≠ j -> sources self !! i = Some a -> sources self !! j = Some b ->
  collide a b -> raised (_assert_unique_names self) = true.
Proof.
  intros Hij Hi Hj Hc.
  destruct (raised (_assert_unique_names self)) eqn:Hr; [reflexivity|exfalso].
  apply outcome_unit_raised, unique_names_loop_passes in Hr as [Hall Hnd].
  rewrite Forall_forall in Hall.
  destruct (Hall a) as [Ha _]; [eapply list_elem_of_lookup_2; eassumption|].
  destruct (Hall b) as [Hb _]; [eapply list_elem_of_lookup_2; eassumption|].
  assert (He : str_replace space underscore (name a) = str_replace space underscore (name b)).
  { destruct Hc as [Hc|Hc]; [rewrite Hc; reflexivity|].
    rewrite <- !normalized_replaced by assumption. assumption. }
  apply Hij. eapply NoDup_lookup; [exact Hnd| |].
  - rewrite list_lookup_fmap, Hi. reflexivity.
  - rewrite list_lookup_fmap, Hj. cbn. rewrite He. reflexivity.
Qed.

(** ** Generated file names *)

Lemma str_of_uint_digits d : forallb digit (str_of_uint d) = true.
Proof. induction d; cbn; try assumption; reflexivity. Qed.

Lemma str_of_uint_inj d d' : str_of_uint d = str_of_uint d' -> d = d'.
Proof.
  revert d'. induction d; destruct d'; cbn; intros E; try discriminate;
    try reflexivity; f_equal; apply IHd; congruence.
Qed.

Lemma str_of_int_chars n : forallb numeral_char (str_of_int n) = true.
Proof.
  unfold str_of_int.
  assert (Hd : forall d, forallb numeral_char (str_of_uint d) = true).
  { intros d. pose proof (str_of_uint_digits d) as H.
    rewrite forallb_forall in *. intros c Hc. unfold numeral_char. rewrite (H c Hc).
    reflexivity. }
  destruct (Z.to_int n); cbn; rewrite ?Hd; reflexivity.
Qed.

Lemma str_of_int_inj n m : str_of_int n = str_of_int m -> n = m.
Proof.
  unfold str_of_int. intros E.
  rewrite <- (DecimalZ.of_to n), <- (DecimalZ.of_to m).
  destruct (Z.to_int n) as [d|d] eqn:En, (Z.to_int m) as [d'|d'] eqn:Em.
  - apply str_of_uint_inj in E. congruence.
  - exfalso. pose proof (str_of_uint_digits d) as Hd. rewrite E in Hd. discriminate.
  - exfalso. pose proof (str_of_uint_digits d') as Hd. rewrite <- E in Hd. discriminate.
  - injection E as E. apply str_of_uint_inj in E. congruence.
Qed.

(** Two strings free of a separator, each followed by it, agree when the
    whole strings agree. *)
Lemma split_at_separator (sep : N) (u v e e' : str) :
  sep ∉ u -> sep ∉ v -> u ++ sep :: e = v ++ sep :: e' -> u = v.
Proof.
  revert v. induction u as [|a u IH]; intros [|b v] Hu Hv E; cbn in E.
  - reflexivity.
  - injection E as -> _. exfalso. apply Hv. left.
  - injection E as -> _. exfalso. apply Hu. left.
  - injection E as -> E. f_equal. apply (IH v); [| |assumption].
    + intros Hin. apply Hu. right. assumption.
    + intros Hin. apply Hv. right. assumption.
Qed.

Lemma dot_not_in_numeral n : 46%N ∉ str_of_int n.
Proof.
  intros Hin. pose proof (str_of_int_chars n) as H. rewrite forallb_forall in H.
  apply list_elem_of_In in Hin. apply H in Hin. discriminate.
Qed.

Lemma path_join_generated a b :
  path_join a (py "generated" ++ b)
  = (if bool_decide (a = []) || endswith a [slash] then a else a ++ [slash])
    ++ py "generated" ++ b.
Proof.
  unfold path_join. cbn [startswith py]. 
  change (startswith [slash] (py "generated" ++ b)) with false. cbv iota.
  destruct (bool_decide (a = []) || endswith a [slash]); [reflexivity|].
  rewrite <- app_assoc. reflexivity.
Qed.

Lemma generated_path_inj (self : Pipeline) n m e e' :
  generated_path self n e = generated_path self m e' -> n = m.
Proof.
  unfold generated_path, _image_path. rewrite !path_join_generated.
  intros E. apply app_inv_head in E. apply app_inv_head in E.
  apply str_of_int_inj. eapply (split_at_separator 46%N); [| |exact E];
    apply dot_not_in_numeral.
Qed.

(** ** The pipeline: [_new] and the transforms *)

(** Unfolding of the monad operations. *)
Ltac run_monad :=
  unfold mbind, mret, M_bind, M_ret, lift, reads, modify, raise, on_system, inherited in *;
  cbn [fst snd] in *.

Section pipeline_facts.
Context `{Environment}.

Local Abbreviation count st := (generated_image_count (fst st)).

(** [_new] returns the path [generatedN.<type>] for the current count [N] and
    adds one to the count, or raises and changes nothing; it runs no
    command. *)
Lemma _new_effect image_type (p : Pipeline) (sys : System) :
  exists r p' sys', _new image_type (p, sys) = (r, (p', sys'))
    /\ images_dir p' = images_dir p /\ calls sys' = calls sys /\ clock sys' = clock sys
    /\ ((r = Ok (generated_path p (generated_image_count p) image_type)
         /\ generated_image_count p' = generated_image_count p + 1)
        \/ (raised r = true /\ p' = p /\ sys' = sys)).
Proof.
  unfold _new, _ensure_directory_exists, makedirs, remove, generated_path. run_monad.
  destruct (_assert_no_whitespace _) as [[]|e]; cbn.
  2:{ eexists _, _, _. split; [reflexivity|]. repeat split. right. repeat split. }
  destruct (bool_decide _ || isfile _ sys); cbn.
  { eexists _, _, _. split; [reflexivity|]. repeat split. right. repeat split. }
  destruct (isfile _ _); cbn;
    (eexists _, _, _; split; [reflexivity|]; repeat split; left; split; reflexivity).
Qed.

Lemma magick_convert (args : list str) (sys : System) :
  magick (py "convert" :: args) sys = check_call (magick_command (py "convert" :: args)) sys.
Proof.
  unfold magick, magick_command, _check_call_with_echo.
  destruct LEGACY_IMAGE_MAGICK as [[]|]; reflexivity.
Qed.

Lemma check_call_calls cmd sys :
  calls (snd (check_call cmd sys)) = calls sys ++ [cmd].
Proof.
  unfold check_call. destruct (run_command cmd sys) as [[] s']; reflexivity.
Qed.

Lemma Image__init___effect path sys :
  exists r cmd, Image__init__ path sys = (r, set_calls (calls sys ++ [cmd]) sys)
    /\ forall image, r = Ok image -> filepath image = path.
Proof.
  unfold Image__init__.
  destruct (identify_output _ sys); eexists _, _; (split; [reflexivity|]);
    intros image E; [injection E as <-; reflexivity | discriminate].
Qed.

(** What a transform does to the state: either [_new] raises and nothing
    changes, or the count grows by one, the command line is run on the new
    path, and an image that is returned is the one at that path. *)
Lemma transform_effect image_type arguments (st : Pipeline * System) :
  (forall out, exists args, arguments out = py "convert" :: args) ->
  exists r st', transform image_type arguments st = (r, st')
    /\ images_dir (fst st') = images_dir (fst st)
    /\ ((raised r = true /\ st' = st /\ raised (fst (_new image_type st)) = true)
        \/ (exists rest,
              let out := generated_path (fst st) (count st) image_type in
              fst (_new image_type st) = Ok out
              /\ count st' = count st + 1
              /\ calls (snd st') = calls (snd st) ++ magick_command (arguments out) :: rest
              /\ forall image, r = Ok image -> filepath image = out)).
Proof.
  intros Hargs. destruct st as [p sys]. unfold transform.
  destruct (_new_effect image_type p sys) as (r0 & p1 & sys1 & E0 & Hd & Hc & _ & Hr).
  unfold mbind at 1, M_bind at 1. rewrite E0. cbn [fst snd].
  destruct Hr as [[-> Hn]|(Hr & -> & ->)].
  2:{ destruct r0 as [?|e]; [discriminate|]. eexists _, _. split; [reflexivity|].
      split; [reflexivity|]. left. repeat split. }
  cbn beta iota. set (out := generated_path p (generated_image_count p) image_type).
  destruct (Hargs out) as [args Ea]. run_monad. rewrite Ea, magick_convert.
  pose proof (check_call_calls (magick_command (py "convert" :: args)) sys1) as Hcc.
  destruct (check_call _ sys1) as [[[]|e] sys2]; cbn [fst snd] in *.
  - destruct (Image__init___effect out sys2) as (r & cmd & -> & Hi).
    eexists _, _. split; [reflexivity|]. split; [assumption|]. right.
    exists [cmd]. cbn. rewrite Hcc, Hc, <- app_assoc. repeat split; assumption.
  - eexists _, _. split; [reflexivity|]. split; [assumption|]. right.
    exists []. cbn. rewrite Hcc, Hc. repeat split; try assumption. discriminate.
Qed.


Lemma startswith_app (u v : str) : startswith u (u ++ v) = true.
Proof. induction u as [|a u IH]; [reflexivity|]. cbn. rewrite N.eqb_refl. exact IH. Qed.

Lemma endswith_app (a b : str) : endswith (a ++ b) b = true.
Proof. unfold endswith. rewrite rev_app_distr. apply startswith_app. Qed.

Lemma generated_path_endswith (p : Pipeline) n image_type :
  endswith (generated_path p n image_type) (py "." ++ image_type) = true.
Proof.
  unfold generated_path, _image_path. rewrite path_join_generated.
  rewrite !app_assoc, <- (app_assoc _ (py ".") image_type). apply endswith_app.
Qed.

Lemma generated_path_dir (p p' : Pipeline) n image_type :
  images_dir p = images_dir p' ->
  generated_path p n image_type = generated_path p' n image_type.
Proof. unfold generated_path, _image_path. intros ->. reflexivity. Qed.

(** Each transform is [_new], one ['convert'] command line and the probe. *)
Lemma perform_transform (o : operation) :
  exists arguments, perform o = transform (image_type_of o) arguments
    /\ (forall out, exists args, arguments out = py "convert" :: args)
    /\ (forall out,
          match o with
          | To_jpg image => arguments out = [py "convert"; filepath image; out]
          | _ => exists before, arguments out = before ++ MAGICK_PNG_COLOR ++ [out]
          end).
Proof.
  destruct o; cbn [perform image_type_of]; unfold crop, blank, place, resize, to_jpg;
    (eexists (fun out => _); split; [reflexivity|]; split; intros out;
     [eexists; reflexivity | try reflexivity; eexists; reflexivity]).
Qed.

Lemma perform_effect (o : operation) (st : Pipeline * System) :
  exists arguments r st', perform o st = (r, st')
    /\ (forall out,
          match o with
          | To_jpg image => arguments out = [py "convert"; filepath image; out]
          | _ => exists before, arguments out = before ++ MAGICK_PNG_COLOR ++ [out]
          end)
    /\ images_dir (fst st') = images_dir (fst st)
    /\ ((raised r = true /\ st' = st /\ raised (fst (_new (image_type_of o) st)) = true)
        \/ (exists rest,
              let out := generated_path (fst st) (count st) (image_type_of o) in
              fst (_new (image_type_of o) st) = Ok out
              /\ count st' = count st + 1
              /\ calls (snd st') = calls (snd st) ++ magick_command (arguments out) :: rest
              /\ forall image, r = Ok image -> filepath image = out)).
Proof.
  destruct (perform_transform o) as (arguments & -> & Hc & Ha).
  destruct (transform_effect (image_type_of o) arguments st Hc) as (r & st' & E & Hrest).
  exists arguments, r, st'. split; [assumption|]. split; assumption.
Qed.
End pipeline_facts.

(** ** Runs of calls and the numbering of generated images *)

Section run_facts.
Context {St C : Type} (step : C -> M St Image) (obj : St -> Pipeline)
        (alloc : C -> option str).

(** What one call may do to the pipeline object: it keeps the images
    directory, never lowers the count, and when it returns an image either
    took the next generated name (a transform) or left the count alone. *)
Hypothesis step_effect : forall c st r st',
  step c st = (r, st') ->
  images_dir (obj st') = images_dir (obj st)
  /\ generated_image_count (obj st) <= generated_image_count (obj st')
  /\ forall image, r = Ok image ->
       match alloc c with
       | Some image_type =>
           generated_image_count (obj st') = generated_image_count (obj st) + 1
           /\ filepath image
              = generated_path (obj st) (generated_image_count (obj st)) image_type
       | None => generated_image_count (obj st') = generated_image_count (obj st)
       end.

Lemma run_numbering (cs : list C) : forall st images e st',
  run step cs st = (images, e, st') ->
  images_dir (obj st') = images_dir (obj st)
  /\ generated_image_count (obj st) <= generated_image_count (obj st')
  /\ (length images <= length cs)%nat
  /\ forall k c image image_type,
       cs !! k = Some c -> images !! k = Some image -> alloc c = Some image_type ->
       filepath image
       = generated_path (obj st)
           (generated_image_count (obj st) + allocations alloc (take k cs)) image_type.
Proof.
  induction cs as [|c cs IH]; intros st images e st' Hrun; cbn [run] in Hrun.
  - injection Hrun as <- <- <-. repeat split; try lia; try reflexivity.
    intros k c image image_type Hk. discriminate.
  - destruct (step c st) as [[image0|e0] st1] eqn:Hstep.
    2:{ injection Hrun as <- <- <-.
        destruct (step_effect _ _ _ _ Hstep) as (Hd & Hle & _).
        repeat split; try assumption; cbn; try lia. intros k c' image image_type _ Hi.
        discriminate. }
    destruct (run step cs st1) as [[images1 e1] st2] eqn:Hrest.
    injection Hrun as <- <- <-.
    destruct (step_effect _ _ _ _ Hstep) as (Hd & Hle & Himg).
    specialize (Himg image0 eq_refl).
    destruct (IH _ _ _ _ Hrest) as (Hd1 & Hle1 & Hlen & Hnames).
    split; [congruence|]. split; [lia|]. split; [cbn; lia|].
    intros [|k] c' image image_type Hc Hi Ha; cbn in Hc, Hi.
    + injection Hc as <-. injection Hi as <-. rewrite Ha in Himg.
      destruct Himg as [_ ->]. cbn. rewrite Z.add_0_r. reflexivity.
    + rewrite (Hnames k c' image image_type Hc Hi Ha).
      rewrite (generated_path_dir _ _ _ _ Hd). f_equal.
      cbn [take allocations]. destruct (alloc c); [destruct Himg as [-> _]|rewrite Himg]; lia.
Qed.

End run_facts.

Section pipeline_runs.
Context `{Environment}.

Lemma perform_step (o : operation) (st : Pipeline * System) r st' :
  perform o st = (r, st') ->
  images_dir (fst st') = images_dir (fst st)
  /\ generated_image_count (fst st) <= generated_image_count (fst st')
  /\ forall image, r = Ok image ->
       match Some (image_type_of o) with
       | Some image_type =>
           generated_image_count (fst st') = generated_image_count (fst st) + 1
           /\ filepath image
              = generated_path (fst st) (generated_image_count (fst st)) image_type
       | None => generated_image_count (fst st') = generated_image_count (fst st)
       end.
Proof.
  intros E. destruct (perform_effect o st) as (arguments & r0 & st0 & E0 & _ & Hd & Hr).
  rewrite E in E0. injection E0 as <- <-. split; [assumption|].
  destruct Hr as [(Hr & -> & _)|(rest & _ & Hn & _ & Hi)].
  - split; [lia|]. intros image ->. discriminate.
  - split; [lia|]. intros image Ei. split; [assumption | apply Hi, Ei].
Qed.

Lemma allocations_all (ops : list operation) :
  allocations (fun o => Some (image_type_of o)) ops = Z.of_nat (length ops).
Proof. induction ops as [|o ops IH]; cbn [allocations length]; lia. Qed.

(** C2: along any run of transforms on one pipeline the count never
    decreases, the image returned by the k-th call is named
    [generated(N+k).<type>] for the initial count [N], and the images
    returned have pairwise distinct paths. *)
Theorem generated_names_distinct
    (ops : list operation) (st st' : Pipeline * System) images e :
  run perform ops st = (images, e, st') ->
  generated_image_count (fst st) <= generated_image_count (fst st')
  /\ (forall k o image,
        ops !! k = Some o -> images !! k = Some image ->
        filepath image
        = generated_path (fst st) (generated_image_count (fst st) + Z.of_nat k)
            (image_type_of o))
  /\ NoDup (List.map filepath images).
Proof.
  intros Hrun.
  destruct (run_numbering perform fst (fun o => Some (image_type_of o)) perform_step
              ops st images e st' Hrun) as (_ & Hle & Hlen & Hnames).
  assert (Hk : forall k o image,
             ops !! k = Some o -> images !! k = Some image ->
             filepath image
             = generated_path (fst st) (generated_image_count (fst st) + Z.of_nat k)
                 (image_type_of o)).
  { intros k o image Ho Hi. rewrite (Hnames k o image _ Ho Hi eq_refl).
    rewrite allocations_all, length_take.
    apply lookup_lt_Some in Ho. f_equal. lia. }
  split; [assumption|]. split; [assumption|].
  apply NoDup_alt. intros i j path Hi Hj.
  rewrite list_lookup_fmap in Hi, Hj.
  destruct (images !! i) as [a|] eqn:Ea; [|discriminate].
  destruct (images !! j) as [b|] eqn:Eb; [|discriminate].
  cbn in Hi, Hj.
  destruct (ops !! i) as [oa|] eqn:Eoa.
  2:{ apply lookup_ge_None in Eoa. apply lookup_lt_Some in Ea. lia. }
  destruct (ops !! j) as [ob|] eqn:Eob.
  2:{ apply lookup_ge_None in Eob. apply lookup_lt_Some in Eb. lia. }
  pose proof (Hk i oa a Eoa Ea) as Ha. pose proof (Hk j ob b Eob Eb) as Hb.
  assert (Heq : generated_path (fst st) (generated_image_count (fst st) + Z.of_nat i)
                  (image_type_of oa)
                = generated_path (fst st) (generated_image_count (fst st) + Z.of_nat j)
                  (image_type_of ob)) by congruence.
  apply generated_path_inj in Heq. lia.
Qed.

End pipeline_runs.

Lemma generated_names_distinct_witness :
  0 <= generated_image_count (fst (snd demo_operations_run))
  /\ (forall k o image,
        demo_operations !! k = Some o -> fst (fst demo_operations_run) !! k = Some image ->
        filepath image = generated_path demo_pipeline (0 + Z.of_nat k) (image_type_of o))
  /\ NoDup (List.map filepath (fst (fst demo_operations_run))).
Proof.
  apply (generated_names_distinct (H := demo_environment) demo_operations
           (demo_pipeline, empty_system 0)
           (snd demo_operations_run) (fst (fst demo_operations_run))
           (snd (fst demo_operations_run))).
  vm_compute. reflexivity.
Defined.

(** ** The output format of the transforms *)

Section format_facts.
Context `{Environment}.

Lemma magick_command_last (args : list str) (out : str) :
  List.last (magick_command (args ++ [out])) [] = out.
Proof.
  unfold magick_command. destruct LEGACY_IMAGE_MAGICK as [[]|];
    rewrite ?app_comm_cons; apply last_last.
Qed.

Lemma magick_command_png_color (before : list str) (out : str) :
  png_color_before out (magick_command (before ++ MAGICK_PNG_COLOR ++ [out])).
Proof.
  unfold magick_command, png_color_before. destruct LEGACY_IMAGE_MAGICK as [[]|].
  - exists before. reflexivity.
  - exists (py "magick" :: before). reflexivity.
  - exists before. reflexivity.
Qed.

Lemma endswith_png_not_jpg (a : str) :
  endswith (a ++ py ".png") (py ".jpg") = false.
Proof. unfold endswith. rewrite rev_app_distr. reflexivity. Qed.

Lemma generated_png_not_jpg (p : Pipeline) n :
  endswith (generated_path p n (py "png")) (py ".jpg") = false.
Proof.
  unfold generated_path, _image_path. rewrite path_join_generated.
  rewrite !app_assoc, <- (app_assoc _ (py ".") (py "png")). apply endswith_png_not_jpg.
Qed.

(** A command line of [to_jpg] does not hold the directive: its words are
    ['convert'], the input path, and an output path that ends in [.jpg]. *)
Lemma to_jpg_command_plain (input out : str) :
  endswith out (py ".jpg") = true ->
  ~ has_png_color (magick_command [py "convert"; input; out]).
Proof.
  intros Hout (before & after & E). unfold magick_command, MAGICK_PNG_COLOR in E.
  assert (Hne : out <> py "png:color-type=6").
  { intros ->. vm_compute in Hout. discriminate. }
  vm_compute in Hne.
  destruct LEGACY_IMAGE_MAGICK as [[]|];
    repeat (destruct before as [|? before]; vm_compute in E; try discriminate);
    injection E; intros; subst; try discriminate; congruence.
Qed.

(** C8: a transform that gets its output path from [_new] runs one
    ImageMagick command line whose last word is that path.  For crop, blank,
    place and resize the path ends in [.png] (and not in [.jpg]) and the
    words [-define png:color-type=6] come right before it; for to_jpg the
    path ends in [.jpg] and the directive is absent. *)
Theorem transforms_output_format (o : operation) (st : Pipeline * System) (out : str) :
  fst (_new (image_type_of o) st) = Ok out ->
  exists cmd rest,
    calls (snd (snd (perform o st))) = calls (snd st) ++ cmd :: rest
    /\ List.last cmd [] = out
    /\ match o with
       | To_jpg _ => endswith out (py ".jpg") = true /\ ~ has_png_color cmd
       | _ => endswith out (py ".png") = true /\ endswith out (py ".jpg") = false
              /\ png_color_before out cmd
       end.
Proof.
  intros Hnew.
  destruct (perform_effect o st) as (arguments & r & st' & E & Ha & _ & Hr).
  destruct Hr as [(_ & _ & Hr)|(rest & Hout & _ & Hcalls & _)].
  { rewrite Hnew in Hr. discriminate. }
  rewrite Hnew in Hout. injection Hout as ->.
  set (out := generated_path (fst st) (generated_image_count (fst st)) (image_type_of o))
    in *.
  exists (magick_command (arguments out)), rest. rewrite E. split; [exact Hcalls|].
  specialize (Ha out).
  destruct o; cbn [image_type_of] in *.
  1-4: destruct Ha as [before ->];
       (split; [rewrite !app_assoc; apply magick_command_last|]);
       (split; [apply generated_path_endswith|]);
       (split; [apply generated_png_not_jpg | apply magick_command_png_color]).
  rewrite Ha. split; [apply (magick_command_last [py "convert"; filepath image])|].
  split; [apply generated_path_endswith|].
  apply to_jpg_command_plain, generated_path_endswith.
Qed.

End format_facts.

Lemma transforms_output_format_witness :
  exists cmd rest,
    calls (snd (snd (perform (H := demo_environment)
                       (Resize demo_image (mkSize 1440 1080))
                       (demo_pipeline, empty_system 0))))
      = [] ++ cmd :: rest
    /\ List.last cmd [] = py "/home/u/simple/images/generated0.png"
    /\ endswith (py "/home/u/simple/images/generated0.png") (py ".png") = true
    /\ endswith (py "/home/u/simple/images/generated0.png") (py ".jpg") = false
    /\ png_color_before (py "/home/u/simple/images/generated0.png") cmd.
Proof.
  apply (transforms_output_format (H := demo_environment)
           (Resize demo_image (mkSize 1440 1080)) (demo_pipeline, empty_system 0)
           (py "/home/u/simple/images/generated0.png")).
  vm_compute. reflexivity.
Defined.

(** ** The source catalog: [get] *)

Section get_facts.
Context `{Environment}.

Lemma _source_unknown (self : Downlinx) source_name :
  source_name ∉ List.map name (sources self) -> _source self source_name = None.
Proof.
  unfold _source. induction (sources self) as [|s l IH]; [reflexivity|].
  cbn [List.map find]. intros Hn. apply not_elem_of_cons in Hn as [Hs Hl].
  rewrite bool_decide_eq_false_2 by congruence. apply IH, Hl.
Qed.

(** [get] changes the machine only: the object, and with it the count of
    generated images, is the same after the call, whatever the outcome. *)
Lemma get_keeps_object (source_name size : str) (st : Downlinx * System) :
  fst (snd (get source_name size st)) = fst st.
Proof.
  destruct st as [self sys]. unfold get, get_cached, Image__init__. run_monad.
  repeat (case_match; cbn beta iota in *; simplify_eq; try reflexivity).
Qed.


Lemma _ensure_directory_exists_effect path sys sys1 :
  _ensure_directory_exists path sys = (Ok tt, sys1) ->
  files sys1 = files sys /\ clock sys1 = clock sys /\ calls sys1 = calls sys.
Proof.
  unfold _ensure_directory_exists, makedirs.
  destruct (bool_decide _ || isfile _ sys); intros E; [discriminate|].
  injection E as <-. repeat split.
Qed.

(** What [get] does for a known source once the cache path is accepted and
    its directory exists: the freshness test decides between the cached file
    and a download, and the download needs the size label. *)
Lemma get_known (self : Downlinx) (sys sys1 : System) source_name size s nn :
  _source self source_name = Some s ->
  _replace_spaces source_name = Ok nn ->
  _assert_no_whitespace (cache_path self nn size) = Ok tt ->
  _ensure_directory_exists (cache_path self nn size) sys = (Ok tt, sys1) ->
  get source_name size (self, sys)
  = if fresh s (cache_path self nn size) sys
    then on_system (Image__init__ (cache_path self nn size)) (self, sys1)
    else match url s !! size with
         | Some address =>
             (_ ← on_system (check_call [py "curl"; py "-o"; cache_path self nn size;
                                         address]);
              on_system (Image__init__ (cache_path self nn size))) (self, sys1)
         | None => (Raise (KeyError size), (self, sys1))
         end.
Proof.
  intros Hs Hn Hw Hd.
  destruct (_ensure_directory_exists_effect _ _ _ Hd) as (Hf & Hc & _).
  unfold get, get_cached, fresh, cache_path, getitem, _check_call_with_echo in *. run_monad.
  rewrite Hn. cbn beta iota. rewrite Hw, Hd. cbn beta iota. cbn [fst snd].
  rewrite Hs, Hf. cbn [source_interval source_url].
  destruct (files sys !! _) as [modification_time|]; cbn beta iota; cbn [fst snd].
  - rewrite Hc. destruct (_ <? interval s); cbn beta iota; cbn [fst snd].
    + destruct (Image__init__ _ sys1) as [[image|e] sys2]; reflexivity.
    + destruct (url s !! size); reflexivity.
  - destruct (url s !! size); reflexivity.
Qed.

(** Within a day of the modification, the [seconds] field of the time
    difference is the age in whole seconds. *)
Lemma seconds_within_a_day (now modification_time : Z) :
  0 <= now - modification_time < 86400000000 ->
  seconds (datetime_sub now modification_time) = (now - modification_time) / 1000000.
Proof.
  intros Hr. unfold datetime_sub. cbn [seconds].
  rewrite Z.mod_small by assumption. reflexivity.
Qed.

(** In general the [seconds] field drops the whole days of the age. *)
Lemma seconds_drops_days (now modification_time : Z) :
  seconds (datetime_sub now modification_time)
  = ((now - modification_time) / 1000000) mod 86400.
Proof.
  unfold datetime_sub. cbn [seconds].
  change 86400000000 with (1000000 * 86400).
  rewrite Z.rem_mul_r by lia.
  rewrite (Z.mul_comm 1000000), Z.add_comm, Z.div_add_l by lia.
  rewrite (Z.div_small ((now - modification_time) mod 1000000)); [lia|].
  apply Z.mod_pos_bound. lia.
Qed.

(** So the freshness test of [get] compares the age with the interval for
    files less than a day old. *)
Lemma fresh_within_a_day (s : Source) (path : str) (sys : System) modification_time :
  files sys !! path = Some modification_time ->
  0 <= clock sys - modification_time < 86400000000 ->
  age_in_seconds path sys = Some ((clock sys - modification_time) / 1000000)
  /\ fresh s path sys = ((clock sys - modification_time) / 1000000 <? interval s).
Proof.
  intros Hf Hr. unfold age_in_seconds, fresh. rewrite Hf.
  rewrite (seconds_within_a_day _ _ Hr). split; reflexivity.
Qed.

(** C4: for a source name that the catalog does not hold, [get] raises,
    whether or not a file is at the cache path; it returns no image. *)
Theorem get_unknown_source (self : Downlinx) (sys : System) (source_name size : str) :
  source_name ∉ List.map name (sources self) ->
  exists e, fst (get source_name size (self, sys)) = Raise e.
Proof.
  intros Hn. apply _source_unknown in Hn.
  unfold get, get_cached. run_monad.
  destruct (_replace_spaces source_name) as [nn|e]; [|eauto]. cbn beta iota.
  rewrite !Hn. cbn [source_interval source_url].
  repeat (case_match; cbn beta iota in *; simplify_eq; eauto).
Qed.

(** C6, as amended: for a size label that a known source does not map,
    [get] raises the key-lookup failure when it comes to the URL lookup,
    that is when no file at the cache path passes the freshness test; when
    one does, the outcome is the probe of that file and no key is looked
    up. *)
Theorem get_unknown_size (self : Downlinx) (sys sys1 : System) source_name size s nn :
  _source self source_name = Some s ->
  url s !! size = None ->
  _replace_spaces source_name = Ok nn ->
  _assert_no_whitespace (cache_path self nn size) = Ok tt ->
  _ensure_directory_exists (cache_path self nn size) sys = (Ok tt, sys1) ->
  fst (get source_name size (self, sys))
  = if fresh s (cache_path self nn size) sys
    then fst (Image__init__ (cache_path self nn size) sys1)
    else Raise (KeyError size).
Proof.
  intros Hs Hu Hn Hw Hd. rewrite (get_known _ _ _ _ _ _ _ Hs Hn Hw Hd), Hu.
  destruct (fresh s _ sys); [|reflexivity].
  unfold on_system. cbn [fst snd]. destruct (Image__init__ _ sys1). reflexivity.
Qed.

End get_facts.

(** ** [get] on concrete machines *)

Lemma get_unknown_source_witness :
  exists e, fst (get (H := demo_environment) (py "GOES East") (py "large")
                   (demo_downlinx, cached_system 10000000)) = Raise e.
Proof.
  apply (get_unknown_source (H := demo_environment)).
  apply (bool_decide_unpack _). vm_compute. exact I.
Defined.

Lemma get_unknown_size_witness :
  fst (get (H := demo_environment) (py "GOES-East Full Disk") (py "huge")
         (demo_downlinx, cached_system 10000000))
  = Raise (KeyError (py "huge")).
Proof.
  apply (get_unknown_size (H := demo_environment) demo_downlinx (cached_system 10000000)
           (snd (_ensure_directory_exists
                   (cache_path demo_downlinx (py "GOES-East_Full_Disk") (py "huge"))
                   (cached_system 10000000)))
           (py "GOES-East Full Disk") (py "huge") demo_goes_east
           (py "GOES-East_Full_Disk"));
    vm_compute; reflexivity.
Defined.

(** C6, as stated, fails: a file that passes the freshness test is returned
    although the catalog has no URL for the size label. *)
Lemma get_unknown_size_cached :
  _source demo_downlinx (py "GOES-East Full Disk") = Some demo_goes_east
  /\ url demo_goes_east !! py "medium" = None
  /\ fst (get (H := demo_environment) (py "GOES-East Full Disk") (py "medium")
            (demo_downlinx, medium_system 10000000))
     = Ok (mkImage medium_cache (mkSize 5424 5424)).
Proof. repeat split; vm_compute; reflexivity. Qed.

(** C1 fails on the code: the file at the cache path is 86410 seconds old,
    the refresh interval of the source is 3600 seconds, and [get] returns
    the old file; the only command it runs is the probe. *)
Lemma get_day_old_file_not_downloaded :
  let st := (demo_downlinx, cached_system 86410000000) in
  let after := get (H := demo_environment) (py "GOES-East Full Disk") (py "large") st in
  _source demo_downlinx (py "GOES-East Full Disk") = Some demo_goes_east
  /\ interval demo_goes_east = 3600
  /\ age_in_seconds goes_east_cache (snd st) = Some 86410
  /\ fst after = Ok (mkImage goes_east_cache (mkSize 5424 5424))
  /\ List.filter is_download (calls (snd (snd after))) = []
  /\ files (snd (snd after)) !! goes_east_cache = Some 0.
Proof. repeat split; vm_compute; reflexivity. Qed.

(** The same file an hour and a bit after its download is fetched again. *)
Lemma get_hour_old_file_downloaded :
  let st := (demo_downlinx, cached_system 4000000000) in
  let after := get (H := demo_environment) (py "GOES-East Full Disk") (py "large") st in
  age_in_seconds goes_east_cache (snd st) = Some 4000
  /\ fst after = Ok (mkImage goes_east_cache (mkSize 5424 5424))
  /\ List.map (fun cmd => List.nth 0 cmd []) (List.filter is_download (calls (snd (snd after))))
     = [py "curl"].
Proof. repeat split; vm_compute; reflexivity. Qed.

(** ** The count of generated images across downloads *)

Section count_facts.
Context `{Environment}.

Lemma allocations_transforms (cs : list call) :
  allocations image_type_of_call cs = transforms cs.
Proof.
  unfold transforms. induction cs as [|c cs IH]; [reflexivity|].
  cbn [allocations List.filter]. destruct c; cbn [image_type_of_call is_transform length];
    rewrite IH; lia.
Qed.

Lemma perform_call_step (c : call) (st : Downlinx * System) r st' :
  perform_call c st = (r, st') ->
  images_dir (super (fst st')) = images_dir (super (fst st))
  /\ generated_image_count (super (fst st)) <= generated_image_count (super (fst st'))
  /\ forall image, r = Ok image ->
       match image_type_of_call c with
       | Some image_type =>
           generated_image_count (super (fst st'))
           = generated_image_count (super (fst st)) + 1
           /\ filepath image
              = generated_path (super (fst st))
                  (generated_image_count (super (fst st))) image_type
       | None =>
           generated_image_count (super (fst st'))
           = generated_image_count (super (fst st))
       end.
Proof.
  destruct c as [o|source_name size]; cbn [perform_call image_type_of_call].
  - unfold inherited. destruct st as [self sys]. cbn [fst snd].
    destruct (perform o (super self, sys)) as [r0 [p1 sys1]] eqn:E.
    intros Hr. injection Hr as <- <-. cbn [fst snd super].
    apply (perform_step o (super self, sys) r0 (p1, sys1) E).
  - intros E. pose proof (get_keeps_object source_name size st) as Hk.
    rewrite E in Hk. cbn [fst snd] in Hk. rewrite Hk.
    split; [reflexivity|]. split; [lia|]. intros image _. reflexivity.
Qed.

(** C10: [get] leaves the count of generated images as it was, whatever its
    outcome; a transform that returns adds exactly one; and in a run that
    mixes both, the image of a transform is named by the initial count plus
    the number of transforms before it, the downloads in between not
    counting. *)
Theorem get_keeps_count :
  (forall source_name size (st : Downlinx * System),
     generated_image_count (super (fst (snd (get source_name size st))))
     = generated_image_count (super (fst st)))
  /\ (forall o (st st' : Pipeline * System) image,
        perform o st = (Ok image, st') ->
        generated_image_count (fst st') = generated_image_count (fst st) + 1)
  /\ (forall cs (st st' : Downlinx * System) images e,
        run perform_call cs st = (images, e, st') ->
        forall k o image,
          cs !! k = Some (Transform o) -> images !! k = Some image ->
          filepath image
          = generated_path (super (fst st))
              (generated_image_count (super (fst st)) + transforms (take k cs))
              (image_type_of o)).
Proof.
  split; [|split].
  - intros source_name size st. rewrite get_keeps_object. reflexivity.
  - intros o st st' image E.
    destruct (perform_step o st _ _ E) as (_ & _ & Hi). apply (Hi image eq_refl).
  - intros cs st st' images e Hrun k o image Hc Hi.
    destruct (run_numbering perform_call (fun st => super (fst st)) image_type_of_call
                perform_call_step cs st images e st' Hrun) as (_ & _ & _ & Hnames).
    rewrite (Hnames k (Transform o) image (image_type_of o) Hc Hi eq_refl).
    rewrite allocations_transforms. reflexivity.
Qed.

End count_facts.

Lemma get_keeps_count_witness :
  filepath (List.nth 3 (fst (fst demo_calls_run)) demo_image)
  = generated_path demo_pipeline (0 + transforms (take 3 demo_calls)) (py "jpg").
Proof.
  apply (proj2 (proj2 (get_keeps_count (H := demo_environment)))
           demo_calls (demo_downlinx, empty_system 0) (snd demo_calls_run)
           (fst (fst demo_calls_run)) (snd (fst demo_calls_run))
           ltac:(vm_compute; reflexivity) 3%nat (To_jpg demo_image)
           (List.nth 3 (fst (fst demo_calls_run)) demo_image));
    vm_compute; reflexivity.
Defined.

(** ** The catalog: names that collide or hold other whitespace *)

Section catalog_facts.
Context `{Environment}.

(** A catalog that [__init__] returns has passed both validations. *)
Lemma Downlinx__init___validated pipeline_dir sys self :
  Downlinx__init__ pipeline_dir sys = Ok self ->
  _assert_unique_names self = Ok tt /\ _assert_all_formats_expected self = Ok tt.
Proof.
  unfold Downlinx__init__. cbv zeta. unfold mbind, outcome_bind. intros E.
  repeat case_match; simplify_eq.
  all: repeat match goal with u : unit |- _ => destruct u end; split; assumption.
Qed.

(** Loading a file whose sources fail the uniqueness check raises. *)
Lemma Downlinx__init___raises pipeline_dir sys (self : Downlinx) :
  (forall path, json_load_sources path sys = Ok (sources self)) ->
  raised (_assert_unique_names self) = true ->
  raised (Downlinx__init__ pipeline_dir sys) = true.
Proof.
  intros Hload Hr. unfold Downlinx__init__. cbv zeta.
  destruct (negb (isfile (if negb (isfile _ sys) then _ else _) sys)); [reflexivity|].
  rewrite Hload. unfold mbind, outcome_bind.
  unfold _assert_unique_names in *. cbn [sources] in *.
  destruct (unique_names_loop (sources self) ∅ ∅); [discriminate | reflexivity].
Qed.

(** C3: when two sources of a catalog have equal names, or names that are
    equal after whitespace-to-underscore normalization, the uniqueness
    check raises; loading a sources.json that holds them raises, and no
    construction returns that catalog. *)
Theorem colliding_names_rejected (self : Downlinx) (i j : nat) (a b : Source) :
  i ≠ j -> sources self !! i = Some a -> sources self !! j = Some b -> collide a b ->
  raised (_assert_unique_names self) = true
  /\ (forall pipeline_dir sys,
        (forall path, json_load_sources path sys = Ok (sources self)) ->
        raised (Downlinx__init__ pipeline_dir sys) = true)
  /\ forall pipeline_dir sys, Downlinx__init__ pipeline_dir sys ≠ Ok self.
Proof.
  intros Hij Hi Hj Hc.
  pose proof (unique_names_collision self i j a b Hij Hi Hj Hc) as Hr.
  split; [assumption|]. split.
  - intros pipeline_dir sys Hload. apply (Downlinx__init___raises _ _ self); assumption.
  - intros pipeline_dir sys E.
    apply Downlinx__init___validated in E as [E _]. rewrite E in Hr. discriminate.
Qed.

Lemma unique_names_other_whitespace (self : Downlinx) (s : Source) :
  s ∈ sources self -> other_whitespace (name s) = true ->
  raised (_assert_unique_names self) = true.
Proof.
  intros Hin Hw.
  destruct (raised (_assert_unique_names self)) eqn:Hr; [reflexivity|exfalso].
  apply outcome_unit_raised, unique_names_loop_passes in Hr as [Hall _].
  rewrite Forall_forall in Hall. destruct (Hall s Hin) as [Hs _]. congruence.
Qed.

(** C9: [_replace_spaces] maps each space to an underscore and leaves every
    other character; it returns that string when the name has no whitespace
    but spaces and raises the assertion failure otherwise.  For a name with
    other whitespace the uniqueness check raises on every catalog that
    holds it, no construction returns such a catalog, and [get] raises the
    assertion failure. *)
Theorem replace_spaces_only_spaces (source_name : str) :
  (forall i, str_replace space underscore source_name !! i
             = (fun c => if (c =? space)%N then underscore else c) <$> source_name !! i)
  /\ _replace_spaces source_name
     = (if other_whitespace source_name then Raise AssertionError
        else Ok (str_replace space underscore source_name))
  /\ (other_whitespace source_name = true ->
      (forall self s, s ∈ sources self -> name s = source_name ->
         raised (_assert_unique_names self) = true
         /\ forall pipeline_dir sys, Downlinx__init__ pipeline_dir sys ≠ Ok self)
      /\ forall size st, fst (get source_name size st) = Raise AssertionError).
Proof.
  split; [|split].
  - intros i. unfold str_replace. apply list_lookup_fmap.
  - apply _replace_spaces_eq.
  - intros Hw. split.
    + intros self s Hin Hn. subst source_name.
      pose proof (unique_names_other_whitespace self s Hin Hw) as Hr.
      split; [assumption|]. intros pipeline_dir sys E.
      apply Downlinx__init___validated in E as [E _]. rewrite E in Hr. discriminate.
    + intros size st. unfold get. run_monad.
      rewrite _replace_spaces_eq, Hw. reflexivity.
Qed.

End catalog_facts.

Lemma colliding_names_rejected_witness :
  raised (_assert_unique_names (mkDownlinx demo_pipeline ab_sources)) = true
  /\ (forall pipeline_dir sys,
        (forall path, json_load_sources (Environment := ab_environment) path sys
                      = Ok ab_sources) ->
        raised (Downlinx__init__ (H := ab_environment) pipeline_dir sys) = true)
  /\ forall pipeline_dir sys,
       Downlinx__init__ (H := ab_environment) pipeline_dir sys
       ≠ Ok (mkDownlinx demo_pipeline ab_sources).
Proof.
  apply (colliding_names_rejected (H := ab_environment)
           (mkDownlinx demo_pipeline ab_sources) 0%nat 1%nat
           (mkSource (py "A B") {[ py "large" := py "https://cdn.example/ab.jpg" ]} 60)
           (mkSource (py "A_B") {[ py "large" := py "https://cdn.example/a_b.jpg" ]} 60)).
  - lia.
  - reflexivity.
  - reflexivity.
  - right. vm_compute. reflexivity.
Defined.

(** Loading the catalog with "A B" and "A_B" raises the exception for the
    spaceless name. *)
Lemma ab_catalog_rejected :
  Downlinx__init__ (H := ab_environment) (py "/home/u/simple") ab_system
  = Raise (Exception (spaceless_name_not_unique (py "A_B"))).
Proof. vm_compute. reflexivity. Qed.

Lemma replace_spaces_only_spaces_witness :
  (forall self s, s ∈ sources self -> name s = [65; 9; 66]%N ->
     raised (_assert_unique_names self) = true
     /\ forall pipeline_dir sys,
          Downlinx__init__ (H := demo_environment) pipeline_dir sys ≠ Ok self)
  /\ forall size st,
       fst (get (H := demo_environment) [65; 9; 66]%N size st) = Raise AssertionError.
Proof.
  apply (proj2 (proj2 (replace_spaces_only_spaces (H := demo_environment) [65; 9; 66]%N))).
  vm_compute. reflexivity.
Defined.

(** ** Proportional scaling: [scale_to_width], [scale_to_height], [scale_factor] *)

Section scaling_facts.
Local Open Scope Q_scope.

Lemma inject_Z_pos n : (0 < n)%Z -> 0 < inject_Z n.
Proof. intros. change 0 with (inject_Z 0). rewrite <- Zlt_Qlt. assumption. Qed.

Lemma Qtruncate_nonneg r : 0 <= r -> Qtruncate r = Qfloor r.
Proof.
  intros Hr. unfold Qtruncate.
  destruct (Qnegative r) eqn:E; [apply Qnegative_spec in E; lra | reflexivity].
Qed.

Lemma Qfloor_bounds r (k : Z) :
  inject_Z k <= r -> r < inject_Z k + 1 -> Qfloor r = k.
Proof.
  intros Hl Hu. pose proof (Qfloor_le r) as H1. pose proof (Qlt_floor r) as H2.
  rewrite inject_Z_plus in H2. change (inject_Z 1) with 1 in H2.
  assert (Ha : inject_Z (Qfloor r) < inject_Z (k + 1)).
  { rewrite inject_Z_plus. change (inject_Z 1) with 1. lra. }
  assert (Hb : inject_Z k < inject_Z (Qfloor r + 1)).
  { rewrite inject_Z_plus. change (inject_Z 1) with 1. lra. }
  rewrite <- Zlt_Qlt in Ha, Hb. lia.
Qed.

(** The float nearest to an [x] that approximates the quotient [N / D] of two
    moderate integers within two roundings truncates to the floor of the
    quotient, or to one less when the quotient is a whole number. *)
Lemma truncate_near_quotient (N D : Z) (x : Q) :
  (0 < D < 2 ^ 50)%Z -> (0 < N < 2 ^ 50)%Z ->
  inject_Z N * (1 - 2 * eps) <= x * inject_Z D <= inject_Z N * (1 + 2 * eps) ->
  to_float x = Finite (round_pos x)
  /\ (Qtruncate (round_pos x) = (N / D)%Z
      \/ ((N mod D)%Z = 0%Z /\ Qtruncate (round_pos x) = (N / D - 1)%Z)).
Proof.
  intros HD HN Hx. unfold eps in Hx.
  assert (HDq : 1 <= inject_Z D <= 1125899906842624).
  { change 1 with (inject_Z 1). change 1125899906842624 with (inject_Z (2 ^ 50)).
    rewrite <- !Zle_Qle. lia. }
  assert (HNq : 1 <= inject_Z N <= 1125899906842623).
  { change 1 with (inject_Z 1). change 1125899906842623 with (inject_Z (2 ^ 50 - 1)).
    rewrite <- !Zle_Qle. lia. }
  set (Dq := inject_Z D) in *. set (Nq := inject_Z N) in *.
  assert (Hx0 : 0 < x) by nra.
  assert (Hxu : x <= pow2 52).
  { change (pow2 52) with 4503599627370496. nra. }
  assert (Hxl : pow2 (-1022) <= x).
  { apply Qle_trans with (pow2 (-52)); [apply pow2_le; lia|].
    change (pow2 (-52)) with (1 # 4503599627370496). nra. }
  destruct pow2_52_repr as [Hr52 Hlt].
  destruct (to_float_pos x (pow2 52) Hx0 Hxu Hr52 Hlt) as [E [Hr0 _]].
  pose proof (round_pos_error x Hxl) as Herr.
  change (pow2 (-53)) with (1 # 9007199254740992) in Herr.
  split; [assumption|]. rewrite (Qtruncate_nonneg _ Hr0).
  set (r := round_pos x) in *.
  assert (HrD : Nq - 1 < r * Dq < Nq + 1) by (split; nra).
  pose proof (Z.div_mod N D ltac:(lia)) as Hdm.
  pose proof (Z.mod_pos_bound N D ltac:(lia)) as Hf.
  set (n := (N / D)%Z) in *. set (f := (N mod D)%Z) in *.
  assert (Hn0 : (0 <= n)%Z) by (apply Z.div_pos; lia).
  assert (HNe : Nq == Dq * inject_Z n + inject_Z f).
  { unfold Nq, Dq. rewrite <- inject_Z_mult, <- inject_Z_plus. rewrite <- Hdm. reflexivity. }
  assert (Hfq : 0 <= inject_Z f <= Dq - 1).
  { unfold Dq. change 0 with (inject_Z 0). change 1 with (inject_Z 1).
    unfold Qminus. rewrite <- inject_Z_opp, <- inject_Z_plus, <- !Zle_Qle. lia. }
  assert (Hnq : 0 <= inject_Z n).
  { change 0 with (inject_Z 0). rewrite <- Zle_Qle. assumption. }
  assert (Hup : r < inject_Z n + 1) by nra.
  destruct (Z.eq_dec f 0%Z) as [Hz|Hnz].
  - destruct (Qlt_le_dec r (inject_Z n)) as [Hlow|Hhigh].
    + right. split; [assumption|].
      assert (Hm : inject_Z (n - 1) == inject_Z n - 1).
      { unfold Z.sub. rewrite inject_Z_plus, inject_Z_opp. reflexivity. }
      rewrite Hz in HNe. change (inject_Z 0) with 0 in HNe.
      apply Qfloor_bounds; [|lra].
      destruct (Qlt_le_dec r (inject_Z n - 1)) as [Hc|]; [exfalso|lra].
      assert (r * Dq <= (inject_Z n - 1) * Dq) by nra. nra.
    + left. apply Qfloor_bounds; assumption.
  - left. apply Qfloor_bounds; [|assumption].
    assert (Hf1 : 1 <= inject_Z f).
    { change 1 with (inject_Z 1). rewrite <- Zle_Qle. lia. }
    nra.
Qed.


Lemma float_of_int_small n :
  (- 2 ^ 53 < n < 2 ^ 53)%Z -> exists q, float_of_int n = Ok (Finite q) /\ q == inject_Z n.
Proof.
  intros Hn. destruct pow2_52_repr as [Hr Hlt].
  assert (Hc : representable (pow2 53) /\ pow2 53 < pow2 1024).
  { split; [|apply pow2_lt; lia].
    exists 1%Z, 53%Z. split; [|split; lia]. change (inject_Z 1) with 1. lra. }
  destruct Hc as [Hr53 Hlt53].
  assert (Ha : Qabs (inject_Z n) = inject_Z (Z.abs n)) by reflexivity.
  destruct (to_float_exact (inject_Z n) (pow2 53)) as (r & E & Hre); try assumption.
  - rewrite Ha, pow2_Z by lia. rewrite <- Zle_Qle. lia.
  - destruct (Z.eq_dec n 0%Z) as [->|Hnz]; [left; reflexivity|].
    right. rewrite Ha. apply representable_Z. lia.
  - exists r. unfold float_of_int. rewrite E. split; [reflexivity | assumption].
Qed.

(** X1: for an original size and a target width that are positive and below
    2^25, [scale_to_width] keeps the width and returns the proportional
    height [width * h / w] rounded down, or one less than it when that
    quotient is a whole number. *)
Theorem scale_to_width_proportional (orig : Size) (width : Z) :
  (0 < w orig < 2 ^ 25)%Z -> (0 < h orig < 2 ^ 25)%Z -> (0 < width < 2 ^ 25)%Z ->
  exists height, scale_to_width orig width = Ok (mkSize width height)
    /\ proportional (width * h orig) (w orig) height.
Proof.
  intros Hw Hh HW.
  destruct (aspect_ratio_pos orig) as (a & t & Ea & Ht & Ht0 & Hta); [lia | lia |].
  unfold eps in Hta.
  assert (Ha0 : 0 < a) by nra.
  assert (Hz : Qzero a = false).
  { destruct (Qzero a) eqn:Ez; [apply Qzero_spec in Ez; lra | reflexivity]. }
  destruct (float_of_int_pos width) as (qW & EW & HqW); [lia|].
  unfold scale_to_width. rewrite Ea. cbn. rewrite EW. cbn. rewrite Hz.
  pose proof (inject_Z_pos _ (proj1 HW)) as HW0.
  pose proof (inject_Z_pos _ (proj1 Hh)) as Hh0.
  set (x := qW / a).
  assert (Hxa : x * a == inject_Z width) by (unfold x; rewrite <- HqW; field; lra).
  assert (Hx0 : 0 < x) by nra.
  set (p := x * t).
  assert (Hp : p * (1 - (1 # 9007199254740992)) <= inject_Z width
               /\ inject_Z width <= p * (1 + (1 # 9007199254740992))).
  { unfold p. split; nra. }
  assert (Hp0 : 0 < p) by (unfold p; nra).
  assert (Hp2 : inject_Z width * (1 - 2 * (1 # 9007199254740992)) <= p
                /\ p <= inject_Z width * (1 + 2 * (1 # 9007199254740992))).
  { split; lra. }
  destruct (truncate_near_quotient (width * h orig) (w orig) x) as [E Hq].
  - lia.
  - nia.
  - assert (HxD : x * inject_Z (w orig) == p * inject_Z (h orig)).
    { unfold p. rewrite <- Ht. ring. }
    rewrite HxD, inject_Z_mult. unfold eps. split; nra.
  - rewrite E. cbn. eexists. split; [reflexivity | exact Hq].
Qed.

(** X2: for an original size and a target height that are positive and
    below 2^25, [scale_to_height] keeps the height and returns the
    proportional width [height * w / h] rounded down, or one less than it
    when that quotient is a whole number. *)
Theorem scale_to_height_proportional (orig : Size) (height : Z) :
  (0 < w orig < 2 ^ 25)%Z -> (0 < h orig < 2 ^ 25)%Z -> (0 < height < 2 ^ 25)%Z ->
  exists width, scale_to_height orig height = Ok (mkSize width height)
    /\ proportional (height * w orig) (h orig) width.
Proof.
  intros Hw Hh HH.
  destruct (aspect_ratio_pos orig) as (a & t & Ea & Ht & Ht0 & Hta); [lia | lia |].
  unfold eps in Hta.
  destruct (float_of_int_pos height) as (qH & EH & HqH); [lia|].
  unfold scale_to_height. rewrite Ea. cbn. rewrite EH. cbn.
  pose proof (inject_Z_pos _ (proj1 HH)) as HH0.
  pose proof (inject_Z_pos _ (proj1 Hh)) as Hh0.
  pose proof (inject_Z_pos _ (proj1 Hw)) as Hw0.
  set (x := qH * a).
  set (p := a * inject_Z (h orig)).
  assert (Hp : inject_Z (w orig) * (1 - (1 # 9007199254740992)) <= p
               /\ p <= inject_Z (w orig) * (1 + (1 # 9007199254740992))).
  { unfold p. split; nra. }
  destruct (truncate_near_quotient (height * w orig) (h orig) x) as [E Hq].
  - lia.
  - nia.
  - assert (HxD : x * inject_Z (h orig) == inject_Z height * p).
    { unfold x, p. rewrite HqH. ring. }
    rewrite HxD, inject_Z_mult. unfold eps. split; nra.
  - rewrite E. cbn. eexists. split; [reflexivity | exact Hq].
Qed.

End scaling_facts.

Lemma scale_to_width_proportional_witness :
  exists height, scale_to_width (mkSize 5424 5377) 1920 = Ok (mkSize 1920 height)
    /\ proportional (1920 * 5377) 5424 height.
Proof. apply (scale_to_width_proportional (mkSize 5424 5377) 1920); simpl; lia. Defined.

Lemma scale_to_height_proportional_witness :
  exists width, scale_to_height (mkSize 1 49) 49 = Ok (mkSize width 49)
    /\ proportional (49 * 1) 49 width.
Proof. apply (scale_to_height_proportional (mkSize 1 49) 49); simpl; lia. Defined.

Section scaling_more.
Local Open Scope Q_scope.

(** One axis of [scale_factor]: the product with the factor, rounded to a
    float and truncated, lies between the floor and the ceiling of the exact
    product. *)
Lemma scale_axis (n : Z) (q : Q) :
  (0 <= n < 2 ^ 53)%Z -> 0 <= q -> inject_Z n * q <= pow2 52 ->
  exists m,
    (fn ← float_of_int n; int_of_float (float_mul fn (Finite q))) = Ok m
    /\ (Qfloor (inject_Z n * q) <= m <= Qceiling (inject_Z n * q))%Z.
Proof.
  intros Hn Hq Hb.
  destruct (float_of_int_small n) as (qn & En & Hqn); [lia|].
  assert (Hn0 : 0 <= inject_Z n).
  { change 0 with (inject_Z 0). rewrite <- Zle_Qle. lia. }
  assert (Hx : qn * q == inject_Z n * q) by (rewrite Hqn; reflexivity).
  assert (Hfl : Qfloor (inject_Z n * q) = Qfloor (qn * q)) by (rewrite Hx; reflexivity).
  assert (Hcl : Qceiling (inject_Z n * q) = Qceiling (qn * q)) by (rewrite Hx; reflexivity).
  rewrite Hfl, Hcl. rewrite <- Hx in Hb.
  assert (Hx0 : 0 <= qn * q) by (rewrite Hx; nra).
  rewrite En. unfold mbind, outcome_bind. cbn [float_mul].
  clear Hx Hfl Hcl. remember (qn * q) as x eqn:Ex. clear Ex.
  destruct (Qle_lt_or_eq _ _ Hx0) as [Hpos|Hzero].
  - destruct pow2_52_repr as [Hr Hlt].
    destruct (to_float_pos x (pow2 52) Hpos Hb Hr Hlt) as [E [Hr0 _]].
    rewrite E. cbn [int_of_float]. eexists. split; [reflexivity|].
    rewrite (Qtruncate_nonneg _ Hr0).
    assert (Hc52 : (Qceiling x <= 2 ^ 52)%Z).
    { rewrite <- (Qceiling_Z (2 ^ 52)). apply Qceiling_resp_le.
      rewrite <- pow2_Z by lia. assumption. }
    assert (Hc1 : (1 <= Qceiling x)%Z).
    { pose proof (Qle_ceiling x) as Hc.
      assert (inject_Z 0 < inject_Z (Qceiling x)) by (change (inject_Z 0) with 0; lra).
      rewrite <- Zlt_Qlt in H. lia. }
    split.
    + destruct (Z_le_gt_dec (Qfloor x) 0) as [Hk|Hk].
      * apply Z.le_trans with 0%Z; [assumption|].
        rewrite <- (Qfloor_Z 0). apply Qfloor_resp_le. assumption.
      * rewrite <- (Qfloor_Z (Qfloor x)) at 1. apply Qfloor_resp_le.
        pose proof (Qfloor_le x) as Hfl.
        apply round_pos_ge; [apply inject_Z_pos; lia | assumption |].
        apply representable_Z. split; [lia|].
        pose proof (Qle_floor_ceiling x) as Hfc. rewrite <- Zle_Qle in Hfc. lia.
    + rewrite <- (Qfloor_Z (Qceiling x)). apply Qfloor_resp_le.
      apply round_pos_le; [assumption | apply Qle_ceiling |].
      apply representable_Z. lia.
  - rewrite (to_float_zero x) by (symmetry; assumption). cbn [int_of_float].
    exists 0%Z. split; [reflexivity|].
    assert (Hf : Qfloor x = 0%Z) by (rewrite <- Hzero; reflexivity).
    assert (Hc : Qceiling x = 0%Z) by (rewrite <- Hzero; reflexivity).
    rewrite Hf, Hc. lia.
Qed.

(** X3: for a size with non-negative components and a non-negative finite
    factor whose products stay within 2^52, [scale_factor] returns on each
    axis the exact product rounded down or rounded up. *)
Theorem scale_factor_within_a_pixel (orig : Size) (factor : Q) :
  (0 <= w orig < 2 ^ 53)%Z -> (0 <= h orig < 2 ^ 53)%Z -> 0 <= factor ->
  inject_Z (w orig) * factor <= pow2 52 -> inject_Z (h orig) * factor <= pow2 52 ->
  exists scaled, scale_factor orig (Finite factor) = Ok scaled
    /\ (Qfloor (inject_Z (w orig) * factor) <= w scaled
        <= Qceiling (inject_Z (w orig) * factor))%Z
    /\ (Qfloor (inject_Z (h orig) * factor) <= h scaled
        <= Qceiling (inject_Z (h orig) * factor))%Z.
Proof.
  intros Hw Hh Hf Hbw Hbh. unfold scale_factor.
  destruct (scale_axis (w orig) factor Hw Hf Hbw) as (w' & Ew & Hw').
  destruct (scale_axis (h orig) factor Hh Hf Hbh) as (h' & Eh & Hh').
  unfold mbind, outcome_bind in *.
  destruct (float_of_int (w orig)) as [fw|]; [|discriminate]. rewrite Ew.
  destruct (float_of_int (h orig)) as [fh|]; [|discriminate]. rewrite Eh.
  eexists. split; [reflexivity|]. split; assumption.
Qed.

(** X4: [scale_to_fit] on sizes with components below 2^53 in magnitude
    raises [ZeroDivisionError] when the height of either size is zero. *)
Theorem scale_to_fit_zero_height (orig box : Size) :
  small (w orig) -> small (h orig) -> small (w box) -> small (h box) ->
  h orig = 0%Z \/ h box = 0%Z ->
  scale_to_fit orig box = Raise ZeroDivisionError.
Proof.
  unfold small. intros Hw Hh HW HH Hz.
  destruct (float_of_int_small (w orig) Hw) as (qw & Ew & Hqw).
  destruct (float_of_int_small (h orig) Hh) as (qh & Eh & Hqh).
  destruct (float_of_int_small (w box) HW) as (qW & EW & HqW).
  destruct (float_of_int_small (h box) HH) as (qH & EH & HqH).
  unfold scale_to_fit, aspect_ratio. rewrite Ew, Eh. cbn.
  destruct (Qzero qh) eqn:Ezh; [reflexivity|]. cbn.
  rewrite EW, EH. cbn.
  destruct (Qzero qH) eqn:EzH; [reflexivity|]. exfalso.
  assert (Hnh : ~ qh == 0) by (intros Hc; apply Qzero_spec in Hc; congruence).
  assert (HnH : ~ qH == 0) by (intros Hc; apply Qzero_spec in Hc; congruence).
  destruct Hz as [Hz|Hz]; rewrite Hz in *; [apply Hnh | apply HnH]; assumption.
Qed.

End scaling_more.

Lemma scale_factor_within_a_pixel_witness :
  exists scaled, scale_factor (mkSize 10 1080) (Finite (7 # 10)) = Ok scaled
    /\ (Qfloor (inject_Z 10 * (7 # 10)) <= w scaled <= Qceiling (inject_Z 10 * (7 # 10)))
    /\ (Qfloor (inject_Z 1080 * (7 # 10)) <= h scaled
        <= Qceiling (inject_Z 1080 * (7 # 10))).
Proof.
  apply (scale_factor_within_a_pixel (mkSize 10 1080) (7 # 10));
    [simpl; lia | simpl; lia | vm_compute; discriminate ..].
Defined.

Lemma scale_to_fit_zero_height_witness :
  scale_to_fit (mkSize 1920 0) (mkSize 800 600) = Raise ZeroDivisionError.
Proof.
  apply (scale_to_fit_zero_height (mkSize 1920 0) (mkSize 800 600));
    unfold small; simpl; lia.
Defined.

(** X5: for sizes with non-negative components below 2^53 and an image no
    larger than the frame, the offset of [centering_offset] puts the image
    inside the frame, with margins that differ by at most one pixel on each
    axis, the smaller one on the left and on the top. *)
Theorem centering_offset_margins (image_size frame_size : Size) (frame_offset : Pos) :
  0 <= w image_size <= w frame_size -> w frame_size < 2 ^ 53 ->
  0 <= h image_size <= h frame_size -> h frame_size < 2 ^ 53 ->
  exists offset,
    centering_offset image_size frame_size (Some frame_offset) = Ok offset
    /\ (let left := x offset - x frame_offset in
        let right := x frame_offset + w frame_size - (x offset + w image_size) in
        0 <= left <= right /\ right <= left + 1)
    /\ (let top := y offset - y frame_offset in
        let bottom := y frame_offset + h frame_size - (y offset + h image_size) in
        0 <= top <= bottom /\ bottom <= top + 1).
Proof.
  intros Hw Hwb Hh Hhb. unfold centering_offset.
  rewrite (centering_axis_exact (w image_size) (w frame_size)) by lia.
  rewrite (centering_axis_exact (h image_size) (h frame_size)) by lia.
  cbn. eexists. split; [reflexivity|]. cbn.
  rewrite !Z.quot_div_nonneg by lia.
  pose proof (Z.div_mod (w frame_size - w image_size) 2 ltac:(lia)).
  pose proof (Z.mod_pos_bound (w frame_size - w image_size) 2 ltac:(lia)).
  pose proof (Z.div_mod (h frame_size - h image_size) 2 ltac:(lia)).
  pose proof (Z.mod_pos_bound (h frame_size - h image_size) 2 ltac:(lia)).
  lia.
Qed.

Lemma centering_offset_margins_witness :
  exists offset,
    centering_offset (mkSize 810 1081) (mkSize 1200 1920) (Some (mkPos 3760 240))
      = Ok offset
    /\ (let left := x offset - 3760 in
        let right := 3760 + 1200 - (x offset + 810) in
        0 <= left <= right /\ right <= left + 1)
    /\ (let top := y offset - 240 in
        let bottom := 240 + 1920 - (y offset + 1081) in
        0 <= top <= bottom /\ bottom <= top + 1).
Proof.
  apply (centering_offset_margins (mkSize 810 1081) (mkSize 1200 1920) (mkPos 3760 240));
    simpl; lia.
Defined.

(** ** The echo of command lines and the ImageMagick dialect *)

Lemma escape_apostrophes_whitespace (s : str) :
  _has_whitespace (escape_apostrophes s) = _has_whitespace s.
Proof.
  unfold _has_whitespace. induction s as [|c s IH]; [reflexivity|].
  cbn [escape_apostrophes]. destruct (N.eqb_spec c apostrophe) as [->|Hc].
  - cbn [existsb]. rewrite IH. reflexivity.
  - cbn [existsb]. rewrite IH. reflexivity.
Qed.

Lemma escape_apostrophes_inj (s s' : str) :
  escape_apostrophes s = escape_apostrophes s' -> s = s'.
Proof.
  revert s'. induction s as [|c s IH]; intros [|c' s'] E; cbn [escape_apostrophes] in E.
  - reflexivity.
  - destruct (c' =? apostrophe)%N; discriminate.
  - destruct (c =? apostrophe)%N; discriminate.
  - destruct (N.eqb_spec c apostrophe) as [->|Hc],
             (N.eqb_spec c' apostrophe) as [->|Hc'].
    + injection E as E. f_equal. apply IH, E.
    + injection E as <- E. exfalso.
      destruct s' as [|d s']; cbn [escape_apostrophes] in E; [discriminate|].
      destruct (N.eqb_spec d apostrophe) as [->|Hd]; [discriminate|].
      injection E as E _. congruence.
    + injection E as -> E. exfalso.
      destruct s as [|d s]; cbn [escape_apostrophes] in E; [discriminate|].
      destruct (N.eqb_spec d apostrophe) as [->|Hd]; [discriminate|].
      injection E as E _. congruence.
    + injection E as -> E. f_equal. apply IH, E.
Qed.

Lemma _quote_whitespace (s : str) :
  _has_whitespace (_quote_if_has_whitespace s) = _has_whitespace s.
Proof.
  unfold _quote_if_has_whitespace. destruct (_has_whitespace s) eqn:E; cbn [negb]; [|exact E].
  unfold _has_whitespace in *. cbn [app existsb]. rewrite existsb_app.
  fold (_has_whitespace (escape_apostrophes s)).
  rewrite escape_apostrophes_whitespace. unfold _has_whitespace. rewrite E. reflexivity.
Qed.

(** X6: [_quote_if_has_whitespace] returns a string without whitespace as
    it is, and no two strings have the same echoed form. *)
Theorem _quote_if_has_whitespace_inj (s s' : str) :
  (_has_whitespace s = false -> _quote_if_has_whitespace s = s)
  /\ (_quote_if_has_whitespace s = _quote_if_has_whitespace s' -> s = s').
Proof.
  split.
  - intros E. unfold _quote_if_has_whitespace. rewrite E. reflexivity.
  - intros E.
    assert (Hw : _has_whitespace s = _has_whitespace s').
    { rewrite <- (_quote_whitespace s), <- (_quote_whitespace s'), E. reflexivity. }
    unfold _quote_if_has_whitespace in E. rewrite <- Hw in E.
    destruct (_has_whitespace s); cbn [negb] in E; [|exact E].
    cbn [app] in E. injection E as E. apply app_inv_tail in E.
    apply escape_apostrophes_inj, E.
Qed.

Lemma _quote_if_has_whitespace_inj_witness :
  _quote_if_has_whitespace (py "canvas:black") = py "canvas:black".
Proof.
  apply (proj1 (_quote_if_has_whitespace_inj (py "canvas:black") (py "canvas:black"))).
  reflexivity.
Defined.

Section dialect_facts.
Context `{Environment}.

(** X7: when the dialect was detected by [_is_legacy_imagemagick] and an
    executable was found, [magick] runs one command line whose first word is
    an executable that was found: ['magick'] followed by the arguments if
    magick exists, and otherwise ['convert'], put in front of the arguments
    unless they start with it. *)
Theorem magick_runs_detected_executable
    (magick_found convert_found : bool) (args : list str) (sys : System) :
  LEGACY_IMAGE_MAGICK = _is_legacy_imagemagick magick_found convert_found ->
  magick_found || convert_found = true -> args ≠ [] ->
  exists cmd,
    calls (snd (magick args sys)) = calls sys ++ [cmd]
    /\ ((magick_found = true /\ cmd = py "magick" :: args)
        \/ (magick_found = false /\ convert_found = true
            /\ List.head cmd = Some (py "convert")
            /\ (cmd = args \/ cmd = py "convert" :: args))).
Proof.
  intros HL Hf Ha. unfold magick, _check_call_with_echo. rewrite HL.
  unfold _is_legacy_imagemagick.
  destruct magick_found; [|destruct convert_found; [|discriminate]].
  - eexists. split; [apply check_call_calls|]. left. split; reflexivity.
  - destruct args as [|arg0 args]; [congruence|].
    destruct (bool_decide_reflect (arg0 ≠ py "convert")) as [Hne|He].
    + eexists. split; [apply check_call_calls|]. right.
      repeat split. right. reflexivity.
    + eexists. split; [apply check_call_calls|]. right.
      assert (arg0 = py "convert") as -> by (destruct (decide (arg0 = py "convert")); tauto).
      repeat split. left. reflexivity.
Qed.

End dialect_facts.

Lemma magick_runs_detected_executable_witness :
  exists cmd,
    calls (snd (magick (H := demo_environment) [py "convert"; py "a.png"; py "b.jpg"]
                  (empty_system 0)))
      = [] ++ [cmd]
    /\ ((true = true /\ cmd = py "magick" :: [py "convert"; py "a.png"; py "b.jpg"])
        \/ (true = false /\ false = true /\ List.head cmd = Some (py "convert")
            /\ (cmd = [py "convert"; py "a.png"; py "b.jpg"]
                \/ cmd = py "convert" :: [py "convert"; py "a.png"; py "b.jpg"]))).
Proof.
  apply (magick_runs_detected_executable (H := demo_environment) true false
           [py "convert"; py "a.png"; py "b.jpg"] (empty_system 0)).
  - reflexivity.
  - reflexivity.
  - discriminate.
Defined.

(** ** New paths and geometry arguments *)

(** X8: when [_new] returns a path, no file is left at that path, the
    directory of the path has been made, every other file is as it was, and
    no command has been run. *)
Theorem _new_path_is_free image_type (st st' : Pipeline * System) (path : str) :
  _new image_type st = (Ok path, st') ->
  isfile path (snd st') = false
  /\ path_dirname path ∈ dirs (snd st')
  /\ (forall other, other ≠ path -> files (snd st') !! other = files (snd st) !! other)
  /\ calls (snd st') = calls (snd st).
Proof.
  destruct st as [p sys]. unfold _new, _ensure_directory_exists, makedirs, remove. run_monad.
  destruct (_assert_no_whitespace _) as [[]|e]; cbn; [|discriminate].
  destruct (bool_decide _ || isfile _ sys); cbn; [discriminate|].
  set (path0 := _image_path p _). clearbody path0.
  unfold isfile at 1. cbn [files set_dirs].
  destruct (bool_decide_reflect (is_Some (files sys !! path0))) as [Hp|Hp]; cbn;
    intros E; injection E as <- <-; unfold set_files, set_dirs;
    cbn [snd files dirs calls].
  - repeat split.
    + unfold isfile. cbn [files]. apply bool_decide_eq_false.
      rewrite lookup_delete_eq. apply is_Some_None.
    + apply elem_of_union. left. apply elem_of_singleton. reflexivity.
    + intros other Ho. apply lookup_delete_ne. congruence.
  - repeat split.
    + unfold isfile. cbn [files]. apply bool_decide_eq_false. assumption.
    + apply elem_of_union. left. apply elem_of_singleton. reflexivity.
Qed.

Lemma _new_path_is_free_witness :
  let st := (demo_pipeline,
             mkSystem {[ py "/home/u/simple/images/generated0.png" := 5 ]} ∅ 9 []) in
  isfile (py "/home/u/simple/images/generated0.png") (snd (snd (_new (py "png") st)))
  = false
  /\ path_dirname (py "/home/u/simple/images/generated0.png")
     ∈ dirs (snd (snd (_new (py "png") st)))
  /\ (forall other, other ≠ py "/home/u/simple/images/generated0.png" ->
        files (snd (snd (_new (py "png") st))) !! other = files (snd st) !! other)
  /\ calls (snd (snd (_new (py "png") st))) = calls (snd st).
Proof.
  apply (_new_path_is_free (py "png")
           (demo_pipeline,
            mkSystem {[ py "/home/u/simple/images/generated0.png" := 5 ]} ∅ 9 [])).
  vm_compute. reflexivity.
Defined.

Lemma separator_not_in_numeral (sep : N) (n : Z) :
  numeral_char sep = false -> sep ∉ str_of_int n.
Proof.
  intros Hs Hin. pose proof (str_of_int_chars n) as H. rewrite forallb_forall in H.
  apply list_elem_of_In in Hin. apply H in Hin. congruence.
Qed.

Lemma numeral_then_separator (sep : N) (n m : Z) (e e' : str) :
  numeral_char sep = false ->
  str_of_int n ++ sep :: e = str_of_int m ++ sep :: e' -> n = m /\ e = e'.
Proof.
  intros Hs E.
  assert (Hu : str_of_int n = str_of_int m).
  { eapply (split_at_separator sep); [| |exact E]; apply separator_not_in_numeral, Hs. }
  rewrite Hu in E. apply app_inv_head in E. injection E as E.
  split; [apply str_of_int_inj, Hu | exact E].
Qed.

(** X9: the geometry argument of [crop], [f'{size.w}x{size.h}+{offset.x}+{offset.y}'],
    determines the rectangle: two calls with the same argument have the
    same size and the same offset. *)
Theorem crop_geometry_inj (size size' : Size) (offset offset' : Pos) :
  format_size size ++ format_offset offset = format_size size' ++ format_offset offset' ->
  size = size' /\ offset = offset'.
Proof.
  unfold format_size, format_offset. rewrite <- !app_assoc. cbn [py app List.map
    list_ascii_of_string]. intros E.
  change (N_of_ascii "x") with 120%N in E. change (N_of_ascii "+") with 43%N in E.
  apply (numeral_then_separator 120%N) in E as [Ew E]; [|reflexivity].
  apply (numeral_then_separator 43%N) in E as [Eh E]; [|reflexivity].
  apply (numeral_then_separator 43%N) in E as [Ex E]; [|reflexivity].
  apply str_of_int_inj in E.
  destruct size, size', offset, offset'. cbn in *. subst. split; reflexivity.
Qed.

Lemma crop_geometry_inj_witness :
  mkSize 5424 5377 = mkSize 5424 5377 /\ mkPos 0 (-12) = mkPos 0 (-12).
Proof.
  apply (crop_geometry_inj (mkSize 5424 5377) (mkSize 5424 5377) (mkPos 0 (-12))
           (mkPos 0 (-12))).
  reflexivity.
Defined.

(** ** A constructed catalog *)

Section constructed_facts.
Context `{Environment}.

Lemma formats_expected (self : Downlinx) (s : Source) size address :
  _assert_all_formats_expected self = Ok tt ->
  s ∈ sources self -> url s !! size = Some address ->
  endswith address (py ".jpg") = true.
Proof.
  unfold _assert_all_formats_expected. intros Hf Hs Hu.
  destruct (forallb _ (sources self)) eqn:E; [|discriminate].
  rewrite forallb_forall in E. apply list_elem_of_In in Hs. specialize (E s Hs).
  rewrite forallb_forall in E.
  apply (E (size, address)). apply list_elem_of_In, elem_of_map_to_list. exact Hu.
Qed.

(** X10: a catalog that [Downlinx.__init__] returns starts with a count of
    zero and the images directory of the pipeline directory; its source
    names have no whitespace but spaces and are pairwise distinct, also
    after the spaces are replaced; and every URL of every source ends in
    [.jpg]. *)
Theorem Downlinx__init___invariant pipeline_dir sys (self : Downlinx) :
  Downlinx__init__ pipeline_dir sys = Ok self ->
  generated_image_count (super self) = 0
  /\ images_dir (super self) = path_join pipeline_dir (py "images")
  /\ NoDup (List.map name (sources self))
  /\ NoDup (List.map (fun s => str_replace space underscore (name s)) (sources self))
  /\ (forall s, s ∈ sources self -> other_whitespace (name s) = false)
  /\ (forall s size address,
        s ∈ sources self -> url s !! size = Some address ->
        endswith address (py ".jpg") = true).
Proof.
  intros E. destruct (Downlinx__init___validated _ _ _ E) as [Hu Hf].
  apply unique_names_loop_passes in Hu as [Hall Hnd].
  assert (Hsuper : super self = Pipeline__init__ pipeline_dir).
  { unfold Downlinx__init__ in E. cbv zeta in E. unfold mbind, outcome_bind in E.
    repeat case_match; simplify_eq; reflexivity. }
  rewrite Hsuper. split; [reflexivity|]. split; [reflexivity|]. split; [|split; [|split]].
  - pose proof Hnd as Hnames.
    rewrite <- (List.map_map name (str_replace space underscore)) in Hnames.
    apply (NoDup_fmap_1 (str_replace space underscore)) in Hnames. exact Hnames.
  - exact Hnd.
  - intros s Hs. rewrite Forall_forall in Hall. apply (Hall s Hs).
  - intros s size address Hs Hurl. apply (formats_expected self s size address Hf Hs Hurl).
Qed.

End constructed_facts.

Lemma Downlinx__init___invariant_witness :
  generated_image_count (super demo_downlinx) = 0
  /\ images_dir (super demo_downlinx) = path_join (py "/home/u/simple") (py "images")
  /\ NoDup (List.map name (sources demo_downlinx))
  /\ NoDup (List.map (fun s => str_replace space underscore (name s))
              (sources demo_downlinx))
  /\ (forall s, s ∈ sources demo_downlinx -> other_whitespace (name s) = false)
  /\ (forall s size address,
        s ∈ sources demo_downlinx -> url s !! size = Some address ->
        endswith address (py ".jpg") = true).
Proof.
  apply (Downlinx__init___invariant (H := demo_environment) (py "/home/u/simple")
           demo_init_system demo_downlinx).
  vm_compute. reflexivity.
Defined.

Lemma path_join_relative (a b : str) :
  startswith [slash] b = false ->
  path_join a b
  = (if bool_decide (a = []) || endswith a [slash] then a else a ++ [slash]) ++ b.
Proof.
  intros Hb. unfold path_join. rewrite Hb.
  destruct (bool_decide (a = []) || endswith a [slash]); [reflexivity|].
  rewrite <- app_assoc. reflexivity.
Qed.




(** ** The commands [get] runs *)

Section download_facts.
Context `{Environment}.

Lemma identify_not_download (path : str) :
  is_download (match LEGACY_IMAGE_MAGICK with
               | Some false =>
                   py "magick" :: [py "identify"; py "-ping"; py "-format"; py "%w %h"; path]
               | _ => [py "identify"; py "-ping"; py "-format"; py "%w %h"; path]
               end) = false.
Proof. destruct LEGACY_IMAGE_MAGICK as [[]|]; reflexivity. Qed.

(** The command lines [get] adds to the log: at most one of them runs curl,
    and then it fetches the URL that the source lists for the size label to
    the cache path, the file there having failed the freshness test. *)
Lemma get_commands (self : Downlinx) (sys : System) (source_name size : str) :
  exists extra,
    calls (snd (snd (get source_name size (self, sys)))) = calls sys ++ extra
    /\ (List.filter is_download extra = []
        \/ exists nn s address,
             _replace_spaces source_name = Ok nn
             /\ _source self source_name = Some s
             /\ url s !! size = Some address
             /\ fresh s (cache_path self nn size) sys = false
             /\ List.filter is_download extra
                = [curl_command (cache_path self nn size) address]).
Proof.
  pose proof identify_not_download as Hid.
  unfold get, get_cached, Image__init__, _check_call_with_echo, check_call,
    _ensure_directory_exists, makedirs, source_interval, source_url, getitem,
    fresh, cache_path, curl_command.
  run_monad.
  repeat (case_match; cbn beta iota in *; simplify_eq);
    unfold set_calls, set_dirs in *; cbn [fst snd calls files clock dirs] in *.
  all: try (exists []; split; [symmetry; apply app_nil_r | left; reflexivity]).
  all: try (eexists [_]; split; [reflexivity|]; left; cbn [List.filter];
            rewrite Hid; reflexivity).
  all: rewrite <- ?app_assoc; eexists; (split; [reflexivity|]); right;
    eexists _, _, _; repeat (split; [reflexivity || eassumption|]);
    cbn [List.filter app]; rewrite ?Hid;
    (split; [repeat case_match; simplify_eq; congruence | reflexivity]).
Qed.

Lemma downloads_app (sys : System) (before extra : list (list str)) :
  calls sys = before ++ extra ->
  downloads sys = List.filter is_download before ++ List.filter is_download extra.
Proof. unfold downloads. intros ->. apply List.filter_app. Qed.

(** X12: [get] runs curl at most once, and only to fetch the URL that the
    catalog lists for the source and the size label to the cache path, after
    the freshness test has failed on that path. *)
Theorem get_downloads_listed_url (self : Downlinx) (sys : System) (source_name size : str) :
  let after := snd (snd (get source_name size (self, sys))) in
  downloads after = downloads sys
  \/ exists nn s address,
       _replace_spaces source_name = Ok nn
       /\ _source self source_name = Some s
       /\ url s !! size = Some address
       /\ fresh s (cache_path self nn size) sys = false
       /\ downloads after
          = downloads sys ++ [curl_command (cache_path self nn size) address].
Proof.
  cbv zeta. destruct (get_commands self sys source_name size) as (extra & Hc & Hd).
  rewrite (downloads_app _ _ _ Hc). fold (downloads sys).
  destruct Hd as [->|(nn & s & address & Hn & Hs & Hu & Hf & ->)].
  - left. apply app_nil_r.
  - right. exists nn, s, address. repeat split; assumption.
Qed.

Lemma seconds_range (a b : Z) : 0 <= seconds (datetime_sub a b) < 86400.
Proof.
  rewrite seconds_drops_days. apply Z.mod_pos_bound. lia.
Qed.

(** X13: a source whose interval is one day or more is never downloaded
    again once a file is at its cache path, whatever the age of the file:
    the age that [get] compares is below 86400. *)
Theorem get_daily_source_never_refreshed
    (self : Downlinx) (sys : System) (source_name size : str) (s : Source) :
  _source self source_name = Some s -> 86400 <= interval s ->
  (forall nn, _replace_spaces source_name = Ok nn ->
              isfile (cache_path self nn size) sys = true) ->
  downloads (snd (snd (get source_name size (self, sys)))) = downloads sys.
Proof.
  intros Hs Hi Hfile.
  destruct (get_commands self sys source_name size) as (extra & Hc & Hd).
  rewrite (downloads_app _ _ _ Hc). fold (downloads sys).
  destruct Hd as [->|(nn & s' & address & Hn & Hs' & _ & Hf & _)]; [apply app_nil_r|].
  exfalso. rewrite Hs in Hs'. injection Hs' as <-.
  specialize (Hfile nn Hn). unfold isfile in Hfile. apply bool_decide_eq_true in Hfile.
  destruct Hfile as [modification_time Hm]. unfold fresh in Hf. rewrite Hm in Hf.
  pose proof (seconds_range (clock sys) modification_time).
  apply Z.ltb_ge in Hf. lia.
Qed.

(** The state [get] leaves when it returns an image: the file at the cache
    path passes the freshness test, if curl stamps its output. *)
Lemma get_leaves_fresh (self : Downlinx) (sys : System) source_name size image st1 :
  curl_stamps_output ->
  get source_name size (self, sys) = (Ok image, st1) ->
  exists nn s,
    _replace_spaces source_name = Ok nn /\ _source self source_name = Some s
    /\ fst st1 = self
    /\ (0 < interval s -> fresh s (cache_path self nn size) (snd st1) = true).
Proof.
  intros Hcurl. unfold curl_stamps_output, curl_command in Hcurl.
  unfold get, get_cached, Image__init__, _check_call_with_echo, check_call,
    _ensure_directory_exists, makedirs, source_interval, source_url, getitem,
    fresh, cache_path.
  run_monad. intros E.
  repeat (case_match; cbn beta iota in *; simplify_eq);
    unfold set_calls, set_dirs in *; cbn [fst snd calls files clock dirs] in *.
  all: eexists _, _; (split; [reflexivity|]); (split; [reflexivity|]);
    (split; [reflexivity|]); intros Hi.
  all: try (match goal with
            | Hrun : run_command [_; _; ?p; ?a] ?s0 = (true, ?s1) |- _ =>
                let Hst := fresh "Hst" in
                pose proof (Hcurl p a s0) as Hst; rewrite Hrun in Hst;
                cbn [fst snd] in Hst; rewrite (Hst eq_refl)
            end;
            unfold datetime_sub; cbn [seconds]; rewrite Z.sub_diag;
            apply Z.ltb_lt; exact Hi).
  all: match goal with
       | Hf : files ?s0 !! ?p = Some ?z |- context [files ?s0 !! ?p] => rewrite Hf
       end; assumption.
Qed.

(** X14: if curl stamps its output and the interval of the source is
    positive, a second [get] for the same source and size, made on the state
    that a first one left when it returned an image, runs no download. *)
Theorem get_twice_one_download
    (self : Downlinx) (sys : System) (source_name size : str) image st1 :
  curl_stamps_output ->
  (forall s, _source self source_name = Some s -> 0 < interval s) ->
  get source_name size (self, sys) = (Ok image, st1) ->
  downloads (snd (snd (get source_name size st1))) = downloads (snd st1).
Proof.
  intros Hcurl Hpos E.
  destruct (get_leaves_fresh _ _ _ _ _ _ Hcurl E) as (nn & s & Hn & Hs & Hself & Hf).
  destruct st1 as [self1 sys1]. cbn [fst snd] in *. subst self1.
  destruct (get_commands self sys1 source_name size) as (extra & Hc & Hd).
  rewrite (downloads_app _ _ _ Hc). fold (downloads sys1).
  destruct Hd as [->|(nn' & s' & address & Hn' & Hs' & _ & Hf' & _)]; [apply app_nil_r|].
  exfalso. rewrite Hn in Hn'. injection Hn' as <-. rewrite Hs in Hs'. injection Hs' as <-.
  rewrite (Hf (Hpos s Hs)) in Hf'. discriminate.
Qed.

(** X15: for a source whose interval is zero or negative and a size label
    that it lists, [get] runs curl on every call that reaches the freshness
    test, whether or not a file is cached. *)
Theorem get_zero_interval_downloads
    (self : Downlinx) (sys sys1 : System) source_name size s nn address :
  _source self source_name = Some s -> interval s <= 0 ->
  url s !! size = Some address ->
  _replace_spaces source_name = Ok nn ->
  _assert_no_whitespace (cache_path self nn size) = Ok tt ->
  _ensure_directory_exists (cache_path self nn size) sys = (Ok tt, sys1) ->
  exists rest,
    calls (snd (snd (get source_name size (self, sys))))
    = calls sys ++ curl_command (cache_path self nn size) address :: rest.
Proof.
  intros Hs Hi Hu Hn Hw Hd.
  rewrite (get_known _ _ _ _ _ _ _ Hs Hn Hw Hd), Hu.
  destruct (_ensure_directory_exists_effect _ _ _ Hd) as (_ & _ & Hc).
  assert (Hf : fresh s (cache_path self nn size) sys = false).
  { unfold fresh. destruct (files sys !! _) as [modification_time|]; [|reflexivity].
    pose proof (seconds_range (clock sys) modification_time). apply Z.ltb_ge. lia. }
  rewrite Hf. run_monad. fold (curl_command (cache_path self nn size) address).
  pose proof (check_call_calls (curl_command (cache_path self nn size) address) sys1) as Hcc.
  destruct (check_call _ sys1) as [[[]|e] sys2]; cbn [fst snd] in *.
  - destruct (Image__init___effect (cache_path self nn size) sys2) as (r & cmd & -> & _).
    exists [cmd]. cbn. rewrite Hcc, Hc, <- app_assoc. reflexivity.
  - exists []. rewrite Hcc, Hc. reflexivity.
Qed.

End download_facts.

Lemma demo_curl_stamps : curl_stamps_output (H := demo_environment).
Proof.
  intros path address sys _. cbn. apply lookup_insert_eq.
Qed.

Lemma get_daily_source_never_refreshed_witness :
  downloads (snd (snd (get (H := demo_environment) (py "Blue Marble") (py "large")
                         (daily_downlinx, daily_system 864000000000))))
  = downloads (daily_system 864000000000).
Proof.
  apply (get_daily_source_never_refreshed (H := demo_environment) daily_downlinx
           (daily_system 864000000000) (py "Blue Marble") (py "large") demo_daily).
  - reflexivity.
  - simpl. lia.
  - intros nn Hn. vm_compute in Hn. injection Hn as <-. vm_compute. reflexivity.
Defined.

Lemma get_twice_one_download_witness :
  let first := get (H := demo_environment) (py "GOES-East Full Disk") (py "large")
                 (demo_downlinx, empty_system 0) in
  downloads (snd (snd (get (H := demo_environment) (py "GOES-East Full Disk") (py "large")
                         (snd first))))
  = downloads (snd (snd first)).
Proof.
  apply (get_twice_one_download (H := demo_environment) demo_downlinx (empty_system 0)
           (py "GOES-East Full Disk") (py "large")
           (mkImage goes_east_cache (mkSize 5424 5424))
           (snd (get (H := demo_environment) (py "GOES-East Full Disk") (py "large")
                   (demo_downlinx, empty_system 0)))
           demo_curl_stamps).
  - intros s Hs. vm_compute in Hs. injection Hs as <-. reflexivity.
  - vm_compute. reflexivity.
Defined.

Lemma get_zero_interval_downloads_witness :
  exists rest,
    calls (snd (snd (get (H := demo_environment) (py "Live") (py "large")
                       (daily_downlinx, daily_system 1000000))))
    = [] ++ curl_command (py "/home/u/simple/images/Live_large.jpg")
              (py "https://cdn.example/live.jpg") :: rest.
Proof.
  apply (get_zero_interval_downloads (H := demo_environment) daily_downlinx
           (daily_system 1000000)
           (snd (_ensure_directory_exists (py "/home/u/simple/images/Live_large.jpg")
                   (daily_system 1000000)))
           (py "Live") (py "large") demo_live (py "Live") (py "https://cdn.example/live.jpg"));
    vm_compute; try reflexivity. discriminate.
Defined.

(** ** The cleanup recipes *)

Section recipe_facts.
Context `{Environment}.

Lemma call_returns (c : call) (st st' : Downlinx * System) image :
  perform_call c st = (Ok image, st') ->
  images_dir (super (fst st')) = images_dir (super (fst st))
  /\ match image_type_of_call c with
     | Some image_type =>
         generated_image_count (super (fst st'))
         = generated_image_count (super (fst st)) + 1
         /\ filepath image
            = generated_path (super (fst st))
                (generated_image_count (super (fst st))) image_type
     | None =>
         generated_image_count (super (fst st'))
         = generated_image_count (super (fst st))
     end.
Proof.
  intros E. destruct (perform_call_step c st _ _ E) as (Hd & _ & Hi).
  split; [assumption | apply (Hi image eq_refl)].
Qed.

(** X16: when a cleanup recipe returns, it has taken three generated names
    ([_clean_goes_large]: crop, blank, place) or two
    ([clean_himawari8_large]: blank, place) after its download, and the image
    it returns is the last of them, a PNG. *)
Theorem clean_recipes_names (st st' : Downlinx * System) (image : Image) :
  (forall source_name,
     _clean_goes_large source_name st = (Ok image, st') ->
     generated_image_count (super (fst st')) = generated_image_count (super (fst st)) + 3
     /\ filepath image
        = generated_path (super (fst st)) (generated_image_count (super (fst st)) + 2)
            (py "png"))
  /\ (clean_himawari8_large st = (Ok image, st') ->
      generated_image_count (super (fst st')) = generated_image_count (super (fst st)) + 2
      /\ filepath image
         = generated_path (super (fst st)) (generated_image_count (super (fst st)) + 1)
             (py "png")).
Proof.
  split.
  - intros source_name. unfold _clean_goes_large. unfold mbind, M_bind.
    destruct (get source_name (py "large") st) as [[full_disk|e] st1] eqn:E1; [|discriminate].
    destruct (inherited (crop _ _ _) st1) as [[cropped|e] st2] eqn:E2; [|discriminate].
    destruct (inherited (blank _ _) st2) as [[logo_hider|e] st3] eqn:E3; [|discriminate].
    intros E4.
    destruct (call_returns (Get source_name (py "large")) _ _ _ E1) as [D1 C1].
    destruct (call_returns (Transform (Crop _ _ _)) _ _ _ E2) as [D2 [C2 _]].
    destruct (call_returns (Transform (Blank _ _)) _ _ _ E3) as [D3 [C3 _]].
    destruct (call_returns (Transform (Place _ _ _)) _ _ _ E4) as [D4 [C4 P4]].
    cbn [image_type_of_call image_type_of] in *.
    split; [lia|]. rewrite P4.
    rewrite (generated_path_dir (super (fst st3)) (super (fst st))) by congruence.
    f_equal. lia.
  - unfold clean_himawari8_large. unfold mbind, M_bind.
    destruct (get _ (py "large") st) as [[full_disk|e] st1] eqn:E1; [|discriminate].
    destruct (inherited (blank _ _) st1) as [[logo_hider|e] st2] eqn:E2; [|discriminate].
    intros E3.
    destruct (call_returns (Get _ (py "large")) _ _ _ E1) as [D1 C1].
    destruct (call_returns (Transform (Blank _ _)) _ _ _ E2) as [D2 [C2 _]].
    destruct (call_returns (Transform (Place _ _ _)) _ _ _ E3) as [D3 [C3 P3]].
    cbn [image_type_of_call image_type_of] in *.
    split; [lia|]. rewrite P3.
    rewrite (generated_path_dir (super (fst st2)) (super (fst st))) by congruence.
    f_equal. lia.
Qed.

End recipe_facts.

Lemma clean_recipes_names_witness :
  let result := clean_goes_east_large (H := demo_environment)
                  (demo_downlinx, empty_system 0) in
  generated_image_count (super (fst (snd result))) = 0 + 3
  /\ filepath (mkImage (py "/home/u/simple/images/generated2.png") (mkSize 5424 5424))
     = generated_path demo_pipeline (0 + 2) (py "png").
Proof.
  apply (proj1 (clean_recipes_names (H := demo_environment)
                  (demo_downlinx, empty_system 0)
                  (snd (clean_goes_east_large (H := demo_environment)
                          (demo_downlinx, empty_system 0)))
                  (mkImage (py "/home/u/simple/images/generated2.png") (mkSize 5424 5424)))
           (py "GOES-East Full Disk")).
  vm_compute. reflexivity.
Defined.

(** ** Failures of the external tool, accepted catalogs, and paths *)

Section failure_facts.
Context `{Environment}.


End failure_facts.

(** The loop of [_assert_unique_names] passes on names without other
    whitespace that are new to the sets and pairwise distinct. *)
Lemma unique_names_loop_accepts (todo : list Source) (U V : gset str) :
  Forall (fun s => other_whitespace (name s) = false
                   /\ (name s ∉ U)
                   /\ (str_replace space underscore (name s) ∉ V)) todo ->
  NoDup (List.map (fun s => str_replace space underscore (name s)) todo) ->
  unique_names_loop todo U V = Ok tt.
Proof.
  revert U V. induction todo as [|s todo IH]; intros U V Hall Hnd; [reflexivity|].
  apply Forall_cons in Hall as [(Hw & HU & HV) Hall].
  cbn [List.map] in Hnd. apply NoDup_cons in Hnd as [Hs Hnd].
  cbn [unique_names_loop]. rewrite _replace_spaces_eq, Hw. cbn.
  rewrite bool_decide_eq_false_2 by assumption.
  rewrite bool_decide_eq_false_2 by assumption.
  apply IH; [|assumption].
  rewrite Forall_forall in *. intros a Ha. destruct (Hall a Ha) as (Haw & HaU & HaV).
  assert (Hne : str_replace space underscore (name a)
                ≠ str_replace space underscore (name s)).
  { intros Heq. apply Hs. rewrite <- Heq.
    apply list_elem_of_In, in_map_iff. exists a. split; [reflexivity|].
    apply list_elem_of_In. assumption. }
  split; [assumption|]. split.
  - intros Hin. apply elem_of_union in Hin as [Hin|Hin]; [|tauto].
    apply elem_of_singleton in Hin. apply Hne. rewrite Hin. reflexivity.
  - intros Hin. apply elem_of_union in Hin as [Hin|Hin]; [|tauto].
    apply elem_of_singleton in Hin. tauto.
Qed.

(** X18: [_assert_unique_names] passes exactly on the catalogs whose source
    names have no whitespace but spaces and are pairwise distinct once the
    spaces are replaced by underscores. *)
Theorem _assert_unique_names_exact (self : Downlinx) :
  _assert_unique_names self = Ok tt
  <-> (forall s, s ∈ sources self -> other_whitespace (name s) = false)
      /\ NoDup (List.map (fun s => str_replace space underscore (name s)) (sources self)).
Proof.
  split.
  - intros Hu. apply unique_names_loop_passes in Hu as [Hall Hnd]. split; [|assumption].
    intros s Hs. rewrite Forall_forall in Hall. apply (Hall s Hs).
  - intros [Hw Hnd]. apply unique_names_loop_accepts; [|assumption].
    rewrite Forall_forall. intros s Hs. split; [apply Hw, Hs|].
    split; apply not_elem_of_empty.
Qed.

Section precedence_facts.
Context `{Environment}.

(** X19: the sources of a catalog that [Downlinx.__init__] returns are those
    of sources.json in the pipeline directory when that file exists, and
    those of sources.json next to downlinx.py otherwise. *)
Theorem sources_precedence pipeline_dir sys (self : Downlinx) :
  Downlinx__init__ pipeline_dir sys = Ok self ->
  let override := path_join pipeline_dir (py "sources.json") in
  let shipped := path_join script_dir (py "sources.json") in
  (isfile override sys = true /\ json_load_sources override sys = Ok (sources self))
  \/ (isfile override sys = false /\ isfile shipped sys = true
      /\ json_load_sources shipped sys = Ok (sources self)).
Proof.
  unfold Downlinx__init__. cbv zeta. unfold mbind, outcome_bind.
  destruct (isfile (path_join pipeline_dir (py "sources.json")) sys) eqn:Eo; cbn [negb].
  - rewrite Eo. cbn [negb]. intros E. left. split; [reflexivity|].
    repeat case_match; simplify_eq. reflexivity.
  - destruct (isfile (path_join script_dir (py "sources.json")) sys) eqn:Es; cbn [negb];
      [|discriminate].
    intros E. right. split; [reflexivity|]. split; [reflexivity|].
    repeat case_match; simplify_eq. reflexivity.
Qed.

End precedence_facts.

Lemma sources_precedence_witness :
  (isfile (path_join (py "/home/u/simple") (py "sources.json")) demo_init_system = true
   /\ json_load_sources (Environment := demo_environment)
        (path_join (py "/home/u/simple") (py "sources.json")) demo_init_system
      = Ok (sources demo_downlinx))
  \/ (isfile (path_join (py "/home/u/simple") (py "sources.json")) demo_init_system = false
      /\ isfile (path_join (script_dir (Environment := demo_environment))
                   (py "sources.json")) demo_init_system = true
      /\ json_load_sources (Environment := demo_environment)
           (path_join (script_dir (Environment := demo_environment)) (py "sources.json"))
           demo_init_system
         = Ok (sources demo_downlinx)).
Proof.
  apply (sources_precedence (H := demo_environment) (py "/home/u/simple") demo_init_system
           demo_downlinx).
  vm_compute. reflexivity.
Defined.

Lemma _assert_unique_names_exact_witness :
  (forall s, s ∈ sources demo_downlinx -> other_whitespace (name s) = false)
  /\ NoDup (List.map (fun s => str_replace space underscore (name s))
              (sources demo_downlinx)).
Proof.
  apply (proj1 (_assert_unique_names_exact demo_downlinx)). vm_compute. reflexivity.
Defined.


Lemma drop_while_app_all (f : N -> bool) (u v : str) :
  forallb f u = true -> drop_while f (u ++ v) = drop_while f v.
Proof.
  induction u as [|c u IH]; [reflexivity|]. cbn [forallb app drop_while].
  intros Hu. apply andb_true_iff in Hu as [Hc Hu]. rewrite Hc. apply IH, Hu.
Qed.

Lemma no_slash_forallb (s : str) :
  slash ∉ s -> forallb (fun c => negb (c =? slash)%N) s = true.
Proof.
  intros Hs. apply forallb_forall. intros c Hc. apply negb_true_iff, N.eqb_neq.
  intros ->. apply Hs, list_elem_of_In, Hc.
Qed.

(** The directory of a file name joined to a directory that does not end in
    a slash is that directory. *)
Lemma path_dirname_join (dir filename : str) :
  slash ∉ filename -> dir ≠ [] -> endswith dir [slash] = false ->
  path_dirname (path_join dir filename) = dir.
Proof.
  intros Hf Hd He.
  assert (Hrel : startswith [slash] filename = false).
  { destruct filename as [|c l]; [reflexivity|]. cbn [startswith].
    rewrite andb_true_r. apply N.eqb_neq. intros <-. apply Hf. left. }
  unfold path_join. rewrite Hrel, He, bool_decide_eq_false_2 by assumption.
  cbn [orb]. unfold endswith in He. cbn [rev app] in He.
  destruct (rev dir) as [|c r] eqn:Er.
  { exfalso. apply Hd. rewrite <- (rev_involutive dir), Er. reflexivity. }
  cbn [startswith] in He. rewrite andb_true_r in He.
  assert (Hdir : dir = rev r ++ [c]).
  { rewrite <- (rev_involutive dir), Er. reflexivity. }
  unfold path_dirname, head_upto_last_slash.
  rewrite !rev_app_distr, Er. cbn [rev app].
  rewrite <- !app_assoc. cbn [app].
  rewrite drop_while_app_all
    by (apply no_slash_forallb; intros Hin; apply Hf;
        apply list_elem_of_In, in_rev, list_elem_of_In, Hin).
  cbn [drop_while]. rewrite N.eqb_refl. cbn [negb].
  change (rev (slash :: c :: r)) with (rev (c :: r) ++ [slash]).
  rewrite <- Er, rev_involutive.
  assert (Hc : (c =? slash)%N = false) by (rewrite N.eqb_sym; exact He).
  assert (Hall : forallb (fun c0 => (c0 =? slash)%N) (dir ++ [slash]) = false).
  { rewrite Hdir, <- app_assoc, forallb_app. cbn [forallb app].
    rewrite Hc. cbn [andb]. apply andb_false_r. }
  rewrite Hall. unfold rstrip_slash. rewrite rev_app_distr, Er.
  cbn [rev app drop_while].
  rewrite N.eqb_refl, Hc. rewrite <- Er. apply rev_involutive.
Qed.

(** X20: the path that [_image_path] gives a file name without a slash
    has the images directory of the pipeline as its [os.path.dirname],
    whatever the pipeline directory is. *)
Theorem images_dir_is_dirname (pipeline_dir filename : str) :
  slash ∉ filename ->
  path_dirname (_image_path (Pipeline__init__ pipeline_dir) filename)
  = images_dir (Pipeline__init__ pipeline_dir).
Proof.
  intros Hf. unfold _image_path, Pipeline__init__. cbn [images_dir].
  assert (Hj : path_join pipeline_dir (py "images")
               = (if bool_decide (pipeline_dir = []) || endswith pipeline_dir [slash]
                  then pipeline_dir else pipeline_dir ++ [slash]) ++ py "images")
    by (apply path_join_relative; reflexivity).
  apply path_dirname_join; [assumption| |].
  - rewrite Hj. intros Hnil. apply app_eq_nil in Hnil as [_ Hnil]. discriminate.
  - rewrite Hj. unfold endswith. rewrite rev_app_distr. reflexivity.
Qed.

Lemma images_dir_is_dirname_witness :
  path_dirname (_image_path (Pipeline__init__ (py "/home/u/simple"))
                  (py "generated12.png"))
  = images_dir (Pipeline__init__ (py "/home/u/simple")).
Proof.
  apply (images_dir_is_dirname (py "/home/u/simple") (py "generated12.png")).
  apply (bool_decide_unpack _). vm_compute. exact I.
Defined.
